(** * Silence trimming engine of autovideos: a shallow embedding

    The development follows [src/audio_processor.py].  Integers are [Z],
    loudness values are exact rationals [Q] (the source computes them in
    IEEE doubles; the model keeps the real-number value), time is in
    milliseconds as in the source.  The numeric kernels that have no
    rational closed form (square root, discrete Fourier transform) are a
    parameter of the model, see [Numerics].

    Part I holds the definitions, Part II the lemmas and theorems. *)

From Stdlib Require Import ZArith QArith Qround Qpower Qabs List Bool Lia Lqa.
From Stdlib Require Import String Ascii.
Import ListNotations.

Set Implicit Arguments.
Open Scope Z_scope.

(** * Part I: the model *)

(** ** Python results: a value or a raised exception *)

Inductive Exception : Type :=
| FileNotFoundError
| CouldntDecodeError
| CouldntEncodeError
| ValueError
| TypeError
| ZeroDivisionError
| InvalidDuration
| TooManyMissingFrames.

Inductive result (A : Type) : Type :=
| Ok (a : A)
| Raise (e : Exception).
Arguments Ok {A} a.
Arguments Raise {A} e.

Definition bind {A B} (r : result A) (k : A -> result B) : result B :=
  match r with
  | Ok a => k a
  | Raise e => Raise e
  end.

Declare Scope py_scope.
Delimit Scope py_scope with py.
Notation "x <- r ;; k" := (bind r (fun x => k))
  (at level 61, r at next level, right associativity) : py_scope.
Open Scope py_scope.

(** ** Python and numpy arithmetic on exact numbers *)

Definition Qltb (x y : Q) : bool := negb (Qle_bool y x).

(** [int(x)]: truncation toward zero. *)
Definition py_int (x : Q) : Z := Z.quot (Qnum x) (Zpos (Qden x)).

(** [round(x)]: Python 3 rounds halves to the even neighbour. *)
Definition py_round (x : Q) : Z :=
  let f := Qfloor x in
  let r := (x - inject_Z f)%Q in
  if Qltb r (1 # 2) then f
  else if Qltb (1 # 2) r then f + 1
  else if Z.even f then f else f + 1.

(** [l[start:stop]] for integer bounds (step 1). *)
Definition py_index (n i : Z) : Z :=
  if i <? 0 then Z.max 0 (i + n) else Z.min i n.

Definition py_slice {A} (l : list A) (start stop : Z) : list A :=
  let n := Z.of_nat (List.length l) in
  let s := py_index n start in
  let e := py_index n stop in
  firstn (Z.to_nat (e - s)) (skipn (Z.to_nat s) l).

(** [range(0, stop, step)]; a zero step raises [ValueError]. *)
Definition py_range0 (stop step : Z) : result (list Z) :=
  if step =? 0 then Raise ValueError
  else if step <? 0 then Ok []
  else Ok (map (fun k => Z.of_nat k * step)
               (seq 0 (Z.to_nat ((stop + step - 1) / step)))).

Definition np_sum (l : list Q) : Q := fold_left Qplus l 0%Q.

(** Division of floats; a zero divisor is the numeric degeneracy that the
    source guards against. *)
Definition np_div (x y : Q) : result Q :=
  if Qeq_bool y 0 then Raise ZeroDivisionError else Ok (x / y)%Q.

(** ** Decibel values

    [db = 20 * np.log10(rms / max_possible_amplitude)] is kept symbolic:
    [Log20 x] stands for the real number 20*log10(x), x > 0.  Comparing it
    with a rational threshold p/q is exact:
    20*log10(x) < p/q  iff  x^(20q) < 10^p. *)

Module DB.

Inductive dB : Type :=
| NegInf
| Log20 (x : Q)
| NaN.

(** [20 * np.log10(x)]: -inf at 0 and nan below 0, as numpy computes it. *)
Definition np_log10_times20 (x : Q) : dB :=
  if Qltb 0 x then Log20 x
  else if Qeq_bool x 0 then NegInf
  else NaN.

Definition log20_lt (x thr : Q) : bool :=
  Qltb (x ^ (20 * Zpos (Qden thr))) (10 ^ Qnum thr).

(** [db < thr]; false on nan. *)
Definition lt (db : dB) (thr : Q) : bool :=
  match db with
  | NegInf => true
  | Log20 x => log20_lt x thr
  | NaN => false
  end.

(** [db >= thr]; false on nan. *)
Definition ge (db : dB) (thr : Q) : bool :=
  match db with
  | NegInf => false
  | Log20 x => negb (log20_lt x thr)
  | NaN => false
  end.

End DB.

(** ** pydub's AudioSegment

    A model of the parts of pydub 0.25 that [audio_processor.py] calls, for
    mono audio: [samples] is [get_array_of_samples()], one sample per
    frame.  Positions are milliseconds and are converted to frames as
    pydub does. *)

Module Pydub.

Record AudioSegment : Type := {
  frame_rate : positive;
  max_possible_amplitude : positive;
  samples : list Z
}.

Definition spawn (a : AudioSegment) (data : list Z) : AudioSegment :=
  {| frame_rate := frame_rate a;
     max_possible_amplitude := max_possible_amplitude a;
     samples := data |}.

(** [AudioSegment.empty()]: one byte per sample at 1 Hz, no data. *)
Definition empty : AudioSegment :=
  {| frame_rate := 1; max_possible_amplitude := 128; samples := [] |}.

(** [len(seg)]: the duration in milliseconds,
    [round(1000 * (frame_count / frame_rate))]. *)
Definition len (a : AudioSegment) : Z :=
  py_round (1000 * (inject_Z (Z.of_nat (List.length (samples a)))
                    / inject_Z (Zpos (frame_rate a)))).

(** [frame_count(ms=ms)] *)
Definition frame_count (a : AudioSegment) (ms : Z) : Q :=
  (inject_Z ms * (inject_Z (Zpos (frame_rate a)) / 1000))%Q.

Definition parse_position (a : AudioSegment) (val : Z) : Z :=
  let val := if val <? 0 then len a - Z.abs val else val in
  py_int (frame_count a val).

(** The tail of [__getitem__]: cut the frames, pad up to 2 ms of missing
    frames with silence. *)
Definition cut (a : AudioSegment) (start stop : Z) : result AudioSegment :=
  let s := parse_position a start in
  let e := parse_position a stop in
  let data := py_slice (samples a) s e in
  let missing_frames := e - s - Z.of_nat (List.length data) in
  if missing_frames =? 0 then Ok (spawn a data)
  else if Qltb (frame_count a 2) (inject_Z missing_frames)
       then Raise TooManyMissingFrames
       else Ok (spawn a (data ++ match data with
                                 | [] => []
                                 | _ => repeat 0 (Z.to_nat missing_frames)
                                 end)).

(** [seg[start:stop]] *)
Definition getitem (a : AudioSegment) (start stop : option Z)
  : result AudioSegment :=
  let start := match start with Some s => s | None => 0 end in
  let stop := match stop with Some e => e | None => len a end in
  cut a (Z.min start (len a)) (Z.min stop (len a)).

(** [seg[ms]] *)
Definition getitem_ms (a : AudioSegment) (ms : Z) : result AudioSegment :=
  cut a ms (ms + 1).

(** [audioop.mul] on one sample: scale, clip to the sample range, floor. *)
Definition audioop_mul (a : AudioSegment) (factor : Q) (x : Z) : Z :=
  let maxval := Zpos (max_possible_amplitude a) - 1 in
  let minval := - Zpos (max_possible_amplitude a) in
  let v := (inject_Z x * factor)%Q in
  if Qltb (inject_Z maxval) v then maxval
  else if Qltb v (inject_Z minval + 1) then minval
  else Qfloor v.

(** [audioop.add] on one pair of samples: add and clip. *)
Definition audioop_add (a : AudioSegment) (x y : Z) : Z :=
  let maxval := Zpos (max_possible_amplitude a) - 1 in
  let minval := - Zpos (max_possible_amplitude a) in
  Z.max minval (Z.min maxval (x + y)).

(** [db_to_float(g)] = 10^(g/20), for the gains pydub's fades use
    (0 and -120). *)
Definition db_to_float (g : Z) : Q := (10 ^ (g / 20))%Q.

Definition scale (a : AudioSegment) (gain : Z) (data : list Z) : list Z :=
  if gain =? 0 then data else map (audioop_mul a (db_to_float gain)) data.

(** The ramp of [fade]: one gain step per millisecond for fades longer
    than 100 ms, one per frame otherwise. *)
Fixpoint coarse_ramp (a : AudioSegment) (from_power scale_step : Q)
    (start : Z) (steps : list nat) : result (list Z) :=
  match steps with
  | [] => Ok []
  | i :: rest =>
      chunk <- getitem_ms a (start + Z.of_nat i) ;;
      tl <- coarse_ramp a from_power scale_step start rest ;;
      Ok (map (audioop_mul a (from_power + scale_step * inject_Z (Z.of_nat i))%Q)
              (samples chunk) ++ tl)
  end.

Definition precise_ramp (a : AudioSegment) (from_power scale_step : Q)
    (start_frame : Q) (fade_frames : Z) : list Z :=
  flat_map (fun i =>
      let idx := py_int (start_frame + inject_Z (Z.of_nat i))%Q in
      map (audioop_mul a (from_power + scale_step * inject_Z (Z.of_nat i))%Q)
          (py_slice (samples a) idx (idx + 1)))
    (seq 0 (Z.to_nat fade_frames)).

(** [seg.fade(to_gain, from_gain, start, end, duration)].  An [end] of
    [float('inf')] is passed as [Some (len seg)], which is what
    [min(len(self), end)] makes of it. *)
Definition fade (a : AudioSegment) (to_gain from_gain : Z)
    (start stop duration : option Z) : result AudioSegment :=
  match duration, stop, start with
  | Some _, Some _, Some _ => Raise TypeError
  | _, _, _ =>
  if (to_gain =? 0) && (from_gain =? 0) then Ok a else
  let wrap := fun p => let p := Z.min (len a) p in
                       if p <? 0 then p + len a else p in
  let start := option_map wrap start in
  let stop := option_map wrap stop in
  checked <- match duration with
             | Some d => if d <? 0 then Raise InvalidDuration else Ok tt
             | None => Ok tt
             end ;;
  bounds <-
    match duration, start, stop with
    | Some 0, Some s, Some e | None, Some s, Some e => Ok (s, e, e - s)
    | Some 0, _, _ | None, _, _ => Raise TypeError
    | Some d, Some s, _ => Ok (s, s + d, d)
    | Some d, None, Some e => Ok (e - d, e, d)
    | Some _, None, None => Raise TypeError
    end ;;
  let '(start, stop, duration) := bounds in
  let from_power := db_to_float from_gain in
  before_fade <- getitem a None (Some start) ;;
  let gain_delta := (db_to_float to_gain - from_power)%Q in
  ramp <-
    (if 100 <? duration then
       coarse_ramp a from_power (gain_delta / inject_Z duration)%Q start
                   (seq 0 (Z.to_nat duration))
     else
       let start_frame := frame_count a start in
       let fade_frames := (frame_count a stop - start_frame)%Q in
       scale_step <- np_div gain_delta fade_frames ;;
       Ok (precise_ramp a from_power scale_step start_frame (py_int fade_frames))) ;;
  after_fade <- getitem a (Some stop) None ;;
  Ok (spawn a (scale a from_gain (samples before_fade)
               ++ ramp
               ++ scale a to_gain (samples after_fade)))
  end.

Definition fade_in (a : AudioSegment) (duration : Z) : result AudioSegment :=
  fade a 0 (-120) (Some 0) None (Some duration).

Definition fade_out (a : AudioSegment) (duration : Z) : result AudioSegment :=
  fade a (-120) 0 None (Some (len a)) (Some duration).

(** [seg1 * seg2], that is [seg1.overlay(seg2, position=0, loop=True)]:
    [seg2] is mixed in repeatedly until [seg1] ends.  (With an empty
    [seg2] under a non-empty [seg1] pydub does not return; [append] never
    gets there, the fade of an empty head raises first.) *)
Definition overlay_loop (a b : AudioSegment) : AudioSegment :=
  let n2 := List.length (samples b) in
  spawn a (map (fun k => audioop_add a (nth k (samples a) 0)
                                      (nth (Nat.modulo k n2) (samples b) 0))
               (seq 0 (List.length (samples a)))).

(** [seg1.append(seg2, crossfade)] for two segments of one format. *)
Definition append (seg1 seg2 : AudioSegment) (crossfade : Z)
  : result AudioSegment :=
  if crossfade =? 0 then Ok (spawn seg1 (samples seg1 ++ samples seg2))
  else if len seg1 <? crossfade then Raise ValueError
  else if len seg2 <? crossfade then Raise ValueError
  else
    tail1 <- getitem seg1 (Some (- crossfade)) None ;;
    xf <- fade tail1 (-120) 0 (Some 0) (Some (len tail1)) None ;;
    head2 <- getitem seg2 None (Some crossfade) ;;
    xf2 <- fade head2 0 (-120) (Some 0) (Some (len head2)) None ;;
    body1 <- getitem seg1 None (Some (- crossfade)) ;;
    body2 <- getitem seg2 (Some crossfade) None ;;
    Ok (spawn seg1 (samples body1
                    ++ samples (overlay_loop xf xf2)
                    ++ samples body2)).

End Pydub.

Import Pydub.

(** ** Numeric kernels

    [np.sqrt] and [np.abs(fft(..))] have irrational values; the source gets
    a rounding of them.  The model takes them as a parameter: any rounding
    fits, and no theorem below depends on which one is used. *)

Record Numerics : Type := {
  np_sqrt : Q -> Q;
  fft_abs : list Z -> list Q;
  fft_abs_length : forall s, List.length (fft_abs s) = List.length s
}.

(** ** scipy's Savitzky-Golay filter, window 5, order 2

    [savgol_filter(x, 5, 2)] (mode 'interp') replaces every value by the
    value of the least-squares parabola through a window of five points:
    the window centred on the point in the interior, the first (last) five
    points for the first (last) two values.  For abscissae -2..2 the fitted
    value at [s] is the sum over [t] of [hat s t * x(t)]. *)

Module Savgol.

Definition hat (s t : Z) : Q :=
  (1 # 5) + inject_Z (s * t) / 10 + inject_Z ((s * s - 2) * (t * t - 2)) / 14.

Definition fit_at (x : list Q) (w : nat) (s : Z) : Q :=
  np_sum (map (fun k => hat s (Z.of_nat k - 2) * nth (w + k) x 0)%Q (seq 0 5)).

Definition window_start (n i : nat) : nat :=
  Nat.min (i - 2) (n - 5).

Definition savgol_filter_5_2 (x : list Q) : result (list Q) :=
  let n := List.length x in
  if (n <? 5)%nat then Raise ValueError
  else Ok (map (fun i => let w := window_start n i in
                         fit_at x w (Z.of_nat i - Z.of_nat w - 2))
               (seq 0 n)).

End Savgol.

(** ** The audio processor *)

Record AudioProcessor : Type := {
  threshold_db : Q;
  min_silence_len : Z;
  crossfade_len : Z
}.

(** [AudioProcessor()] with the defaults of [__init__]. *)
Definition default_processor : AudioProcessor :=
  {| threshold_db := -20; min_silence_len := 500; crossfade_len := 50 |}.

(** [np.fft.fftfreq(n, 1/sample_rate)]: bin k holds k*sample_rate/n for
    the first (n-1)//2+1 bins and (k-n)*sample_rate/n for the others. *)
Definition fftfreq (n : nat) (sample_rate : positive) : list Q :=
  let N := ((n - 1) / 2 + 1)%nat in
  map (fun k => inject_Z k * (inject_Z (Zpos sample_rate) / inject_Z (Z.of_nat n)))%Q
      (map Z.of_nat (seq 0 N)
       ++ map (fun j => Z.of_nat j - Z.of_nat (n / 2)) (seq 0 (n / 2))).

(** [a[mask]] for a boolean mask of the same length. *)
Definition masked (a : list Q) (mask : list bool) : list Q :=
  map fst (filter snd (combine a mask)).

(** The loop state of [detect_silence]. *)
Record DetectorState : Type := {
  silence_ranges : list (Z * Z);
  is_silence : bool;
  silence_start : Z
}.

Definition detector_init : DetectorState :=
  {| silence_ranges := []; is_silence := false; silence_start := 0 |}.

(** The loop state of the complement sweep in [remove_silence]. *)
Record SweepState : Type := {
  kept_ranges : list (Z * Z);
  current_pos : Z
}.

Definition sweep_init : SweepState :=
  {| kept_ranges := []; current_pos := 0 |}.

Section Processor.

Context (num : Numerics).
Variable self : AudioProcessor.

(** [get_frequency_features(samples, sample_rate)]; [fft] raises on an
    empty array. *)
Definition voice_energy (samples : list Z) (sample_rate : positive) : Q :=
  let freqs_abs := fft_abs num samples in
  let freq_bins := fftfreq (List.length samples) sample_rate in
  let voice_range_mask :=
    map (fun f => Qle_bool 85 f && Qle_bool f 255) freq_bins in
  np_sum (masked freqs_abs voice_range_mask).

Definition total_energy (samples : list Z) : Q :=
  np_sum (fft_abs num samples).

Definition get_frequency_features (samples : list Z) (sample_rate : positive)
  : result bool :=
  match samples with
  | [] => Raise ValueError
  | _ =>
      let voice_energy := voice_energy samples sample_rate in
      let total_energy := total_energy samples in
      if Qltb 0 total_energy
      then ratio <- np_div voice_energy total_energy ;;
           Ok (Qltb (1 # 10) ratio)
      else Ok false
  end.

(** [smooth_rms_values(rms_values)], window size at its default 5. *)
Definition smooth_rms_values (rms_values : list Q) : result (list Q) :=
  Savgol.savgol_filter_5_2 rms_values.

(** [np.sqrt(np.mean(chunk.astype(float) ** 2))] *)
Definition rms_of (chunk : list Z) : Q :=
  np_sqrt num (np_sum (map (fun x => inject_Z (x * x)) chunk)
               / inject_Z (Z.of_nat (List.length chunk))).

(** Lines 86-88: the filter runs on more than five values only. *)
Definition smoothed (rms_values : list Q) : result (list Q) :=
  if (5 <? List.length rms_values)%nat
  then smooth_rms_values rms_values
  else Ok rms_values.

(** Lines 96-99. *)
Definition to_db (rms : Q) (max_possible_amplitude : positive) : DB.dB :=
  if Qeq_bool rms 0 then DB.NegInf
  else DB.np_log10_times20 (rms / inject_Z (Zpos max_possible_amplitude)).

(** Lines 110-120: one pass of the loop body after [db] and [has_voice]
    are known.  [n] is [len(rms_values)], [track_len] is
    [len(audio_segment)]. *)
Definition transition (track_len : Z) (n i : nat) (db : DB.dB)
    (has_voice : bool) (st : DetectorState) : DetectorState :=
  if DB.lt db (threshold_db self) && negb (is_silence st) && negb has_voice
  then {| silence_ranges := silence_ranges st;
          is_silence := true;
          silence_start := Z.of_nat i * 100 |}
  else if (DB.ge db (threshold_db self) || (Z.of_nat i =? Z.of_nat n - 1)
           || has_voice) && is_silence st
  then
    let silence_end := Z.of_nat i * 100 in
    if min_silence_len self <=? silence_end - silence_start st
    then
      let silence_start := Z.max 0 (silence_start st - crossfade_len self) in
      let silence_end := Z.min track_len (silence_end + crossfade_len self) in
      {| silence_ranges := silence_ranges st ++ [(silence_start, silence_end)];
         is_silence := false;
         silence_start := silence_start |}
    else {| silence_ranges := silence_ranges st;
            is_silence := false;
            silence_start := silence_start st |}
  else st.

(** Lines 95-120: the loop over [enumerate(rms_values)]. *)
Fixpoint detect_loop (audio_segment : AudioSegment) (chunk_size : Z)
    (n i : nat) (rms_values : list Q) (st : DetectorState)
  : result DetectorState :=
  match rms_values with
  | [] => Ok st
  | rms :: rest =>
      let db := to_db rms (max_possible_amplitude audio_segment) in
      let samples := samples audio_segment in
      let chunk_start := Z.of_nat i * chunk_size in
      let chunk_end := Z.min ((Z.of_nat i + 1) * chunk_size)
                             (Z.of_nat (List.length samples)) in
      has_voice <- get_frequency_features
                     (py_slice samples chunk_start chunk_end)
                     (frame_rate audio_segment) ;;
      detect_loop audio_segment chunk_size n (S i) rest
        (transition (len audio_segment) n i db has_voice st)
  end.

(** The same loop with the classification of every chunk ([db],
    [has_voice]) computed first: [classify_loop] collects them, [scan] runs
    the loop body over them.  [detect_loop_scan] in Part II shows that
    [detect_loop] is their composition. *)
Fixpoint classify_loop (audio_segment : AudioSegment) (chunk_size : Z)
    (i : nat) (rms_values : list Q) : result (list (DB.dB * bool)) :=
  match rms_values with
  | [] => Ok []
  | rms :: rest =>
      let db := to_db rms (max_possible_amplitude audio_segment) in
      let samples := samples audio_segment in
      let chunk_start := Z.of_nat i * chunk_size in
      let chunk_end := Z.min ((Z.of_nat i + 1) * chunk_size)
                             (Z.of_nat (List.length samples)) in
      has_voice <- get_frequency_features
                     (py_slice samples chunk_start chunk_end)
                     (frame_rate audio_segment) ;;
      tl <- classify_loop audio_segment chunk_size (S i) rest ;;
      Ok ((db, has_voice) :: tl)
  end.

Fixpoint scan (track_len : Z) (n i : nat) (chunks : list (DB.dB * bool))
    (st : DetectorState) : DetectorState :=
  match chunks with
  | [] => st
  | (db, has_voice) :: rest =>
      scan track_len n (S i) rest (transition track_len n i db has_voice st)
  end.

(** The ranges the loop leaves when run over [chunks] from the start. *)
Definition detect_ranges (track_len : Z) (chunks : list (DB.dB * bool))
  : list (Z * Z) :=
  silence_ranges (scan track_len (List.length chunks) 0 chunks detector_init).

(** Lines 73-84: the loudness of every 100 ms chunk. *)
Definition chunk_size_of (audio_segment : AudioSegment) : Z :=
  py_int (inject_Z (Zpos (frame_rate audio_segment)) * (1 # 10)).

Definition rms_values_of (audio_segment : AudioSegment) : result (list Q) :=
  let samples := samples audio_segment in
  let chunk_size := chunk_size_of audio_segment in
  starts <- py_range0 (Z.of_nat (List.length samples)) chunk_size ;;
  let chunks := map (fun i => py_slice samples i (i + chunk_size)) starts in
  Ok (map rms_of (filter (fun chunk => (0 <? List.length chunk)%nat) chunks)).

(** The classification of all chunks of a recording. *)
Definition classify (audio_segment : AudioSegment)
  : result (list (DB.dB * bool)) :=
  rms_values <- rms_values_of audio_segment ;;
  rms_values <- smoothed rms_values ;;
  classify_loop audio_segment (chunk_size_of audio_segment) 0 rms_values.

(** The detector state after the last chunk. *)
Definition detect_silence_state (audio_segment : AudioSegment)
  : result DetectorState :=
  rms_values <- rms_values_of audio_segment ;;
  rms_values <- smoothed rms_values ;;
  detect_loop audio_segment (chunk_size_of audio_segment)
    (List.length rms_values) 0 rms_values detector_init.

(** [detect_silence(audio_segment)] *)
Definition detect_silence (audio_segment : AudioSegment)
  : result (list (Z * Z)) :=
  st <- detect_silence_state audio_segment ;;
  Ok (silence_ranges st).

(** Lines 138-141: one pass of the complement sweep. *)
Definition sweep_step (st : SweepState) (range : Z * Z) : SweepState :=
  let '(start, end_) := range in
  {| kept_ranges := if current_pos st <? start
                    then kept_ranges st ++ [(current_pos st, start)]
                    else kept_ranges st;
     current_pos := end_ |}.

Definition sweep (silence_ranges : list (Z * Z)) : SweepState :=
  fold_left sweep_step silence_ranges sweep_init.

(** Lines 135-144. *)
Definition kept_ranges_of (track_len : Z) (silence_ranges : list (Z * Z))
  : list (Z * Z) :=
  let st := sweep silence_ranges in
  if current_pos st <? track_len
  then kept_ranges st ++ [(current_pos st, track_len)]
  else kept_ranges st.

(** Lines 149-153: the kept segment, faded at both ends when it is not
    the first and is longer than two crossfades. *)
Definition kept_segment (audio_segment : AudioSegment) (i : nat)
    (range : Z * Z) : result AudioSegment :=
  let '(start, end_) := range in
  segment <- getitem audio_segment (Some start) (Some end_) ;;
  if (0 <? i)%nat && (crossfade_len self * 2 <? len segment)
  then faded <- fade_in segment (crossfade_len self) ;;
       fade_out faded (crossfade_len self)
  else Ok segment.

(** Lines 148-159: the splice loop over [enumerate(kept_ranges)]. *)
Fixpoint splice (audio_segment : AudioSegment) (i : nat)
    (kept : list (Z * Z)) (result_ : AudioSegment) : result AudioSegment :=
  match kept with
  | [] => Ok result_
  | range :: rest =>
      segment <- kept_segment audio_segment i range ;;
      result_ <- (if 0 <? len result_
                  then append result_ segment (crossfade_len self)
                  else Ok segment) ;;
      splice audio_segment (S i) rest result_
  end.

(** [remove_silence(audio_segment, silence_ranges)] *)
Definition remove_silence (audio_segment : AudioSegment)
    (silence_ranges : list (Z * Z)) : result AudioSegment :=
  match silence_ranges with
  | [] => Ok audio_segment
  | _ =>
      splice audio_segment 0
        (kept_ranges_of (len audio_segment) silence_ranges) empty
  end.

End Processor.

(** ** Notions the properties are stated with *)

(** The candidates of a run, before the length test and the margins: what
    the loop emits with [min_silence_len = 0] and [crossfade_len = 0] on a
    track that is as long as its chunks. *)
Definition candidates (thr : Q) (chunks : list (DB.dB * bool)) : list (Z * Z) :=
  detect_ranges {| threshold_db := thr; min_silence_len := 0; crossfade_len := 0 |}
    (100 * Z.of_nat (List.length chunks)) chunks.

(** Lines 115-118 on one candidate. *)
Definition long_enough (self : AudioProcessor) (c : Z * Z) : bool :=
  min_silence_len self <=? snd c - fst c.

Definition expand (self : AudioProcessor) (track_len : Z) (c : Z * Z) : Z * Z :=
  (Z.max 0 (fst c - crossfade_len self),
   Z.min track_len (snd c + crossfade_len self)).



(** The total duration of a list of ranges. *)
Definition total_duration (ranges : list (Z * Z)) : Z :=
  fold_right (fun r acc => snd r - fst r + acc) 0 ranges.

(** Two half-open ranges share a point of time. *)
Definition overlaps (k s : Z * Z) : bool :=
  Z.max (fst k) (fst s) <? Z.min (snd k) (snd s).

(** The ends of the ranges never fall below [lo] nor below an earlier end. *)
Fixpoint ends_nondecreasing (lo : Z) (ranges : list (Z * Z)) : bool :=
  match ranges with
  | [] => true
  | (_, end_) :: rest => (lo <=? end_) && ends_nondecreasing end_ rest
  end.

Definition with_threshold (self : AudioProcessor) (thr : Q) : AudioProcessor :=
  {| threshold_db := thr;
     min_silence_len := min_silence_len self;
     crossfade_len := crossfade_len self |}.

(** What ties the run of the processor to the run without length test and
    margins, before chunk [i]. *)
Definition keeps_pace (self : AudioProcessor) (track_len : Z) (i : nat)
    (st st0 : DetectorState) : Prop :=
  is_silence st = is_silence st0 /\
  (is_silence st0 = true ->
   silence_start st = silence_start st0 /\
   0 <= silence_start st0 <= 100 * Z.of_nat i) /\
  silence_ranges st
  = map (expand self track_len) (filter (long_enough self) (silence_ranges st0)).

(** The duration of the range a candidate from [s] to [e] is widened to. *)
Definition widened (self : AudioProcessor) (track_len s e : Z) : Z :=
  Z.min track_len (e + crossfade_len self) - Z.max 0 (s - crossfade_len self).

(** What ties the run at a threshold ([st_lo]) to the run at a higher one
    ([st_hi]) before chunk [i]: a candidate of the lower run lies inside a
    candidate of the higher run, and the lower run is ahead in total
    duration by no more than what the open candidate of the higher run is
    already worth. *)
Definition lags (self : AudioProcessor) (track_len : Z) (i : nat)
    (st_lo st_hi : DetectorState) : Prop :=
  (is_silence st_lo = true ->
   is_silence st_hi = true /\
   silence_start st_hi <= silence_start st_lo /\
   silence_start st_lo + 100 <= 100 * Z.of_nat i) /\
  (is_silence st_hi = true ->
   0 <= silence_start st_hi /\ silence_start st_hi + 100 <= 100 * Z.of_nat i) /\
  (total_duration (silence_ranges st_lo) <= total_duration (silence_ranges st_hi) \/
   (is_silence st_hi = true /\
    exists e,
      total_duration (silence_ranges st_lo)
      <= total_duration (silence_ranges st_hi)
         + widened self track_len (silence_start st_hi) e /\
      min_silence_len self <= e - silence_start st_hi /\
      e + 100 <= 100 * Z.of_nat i /\
      (is_silence st_lo = true -> e + 100 <= silence_start st_lo))).

(** The ranges follow one another: the first starts at or after [lo] and
    each one ends no later than the next one starts. *)
Fixpoint in_order (lo : Z) (ranges : list (Z * Z)) : bool :=
  match ranges with
  | [] => true
  | (start, end_) :: rest => (lo <=? start) && in_order end_ rest
  end.

(** The processor with another minimum silence length. *)
Definition with_minimum (self : AudioProcessor) (m : Z) : AudioProcessor :=
  {| threshold_db := threshold_db self;
     min_silence_len := m;
     crossfade_len := crossfade_len self |}.


(** The range lies on the track. *)
Definition on_track (track_len : Z) (range : Z * Z) : Prop :=
  0 <= fst range /\ snd range <= track_len.

(** ** Files, the codec service and the batch driver

    The file system and the codec are the world the processor runs in: a
    set of directories, files that decode to audio or fail to, the formats
    the encoder writes, and what was printed.  A path is kept as its
    directory and base name, so that [os.path.join], [os.path.dirname] and
    [os.path.splitext] are projections. *)

Record Path : Type := { dirname : string; basename : string }.

Definition join (dir name : string) : Path :=
  {| dirname := dir; basename := name |}.

Definition path_eqb (p q : Path) : bool :=
  String.eqb (dirname p) (dirname q) && String.eqb (basename p) (basename q).

Inductive FileData : Type :=
| Decodable (audio : AudioSegment)
| Undecodable.

Inductive Event : Type :=
| Processing (input_path : Path)
| Finished (output_path : Path)
| Removed (count : nat)
| Found (count : nat).

Record World : Type := {
  dirs : list string;
  files : list (Path * FileData);
  encoders : list string;
  stdout : list Event
}.

Definition io (A : Type) : Type := World -> result A * World.

Definition io_ret {A} (a : A) : io A := fun w => (Ok a, w).

Definition io_raise {A} (e : Exception) : io A := fun w => (Raise e, w).

Definition io_bind {A B} (m : io A) (k : A -> io B) : io B :=
  fun w => match m w with
           | (Ok a, w') => k a w'
           | (Raise e, w') => (Raise e, w')
           end.

Definition io_lift {A} (r : result A) : io A := fun w => (r, w).

Notation "x <~ m ;; k" := (io_bind m (fun x => k))
  (at level 61, m at next level, right associativity) : py_scope.

Definition print (e : Event) : io unit :=
  fun w => (Ok tt, {| dirs := dirs w; files := files w;
                      encoders := encoders w; stdout := stdout w ++ [e] |}).

Definition dir_exists (dir : string) : io bool :=
  fun w => (Ok (existsb (String.eqb dir) (dirs w)), w).

Definition file_lookup (p : Path) (w : World) : option FileData :=
  option_map snd (find (fun entry => path_eqb p (fst entry)) (files w)).

Definition file_exists (p : Path) : io bool :=
  fun w => (Ok (match file_lookup p w with Some _ => true | None => false end), w).

(** [os.makedirs(dir)]; the empty path is not a directory that can be made. *)
Definition makedirs (dir : string) : io unit :=
  fun w => if String.eqb dir EmptyString
           then (Raise FileNotFoundError, w)
           else (Ok tt, {| dirs := dir :: dirs w; files := files w;
                           encoders := encoders w; stdout := stdout w |}).

Definition listdir (dir : string) : io (list string) :=
  fun w => (Ok (map (fun entry => basename (fst entry))
                    (filter (fun entry => String.eqb dir (dirname (fst entry)))
                            (files w))), w).

(** [AudioSegment.from_file(path)] *)
Definition from_file (p : Path) : io AudioSegment :=
  fun w => match file_lookup p w with
           | Some (Decodable audio) => (Ok audio, w)
           | _ => (Raise CouldntDecodeError, w)
           end.

(** [audio.export(path, format)] *)
Definition export (audio : AudioSegment) (p : Path) (format : string) : io unit :=
  fun w => if existsb (String.eqb format) (encoders w)
           then (Ok tt, {| dirs := dirs w;
                           files := (p, Decodable audio)
                                    :: filter (fun entry => negb (path_eqb p (fst entry)))
                                              (files w);
                           encoders := encoders w; stdout := stdout w |})
           else (Raise CouldntEncodeError, w).

(** [str.lower()] and [str.endswith(suffix)] *)
Definition lower_ascii (c : ascii) : ascii :=
  let n := nat_of_ascii c in
  if (65 <=? n)%nat && (n <=? 90)%nat then ascii_of_nat (n + 32) else c.

Fixpoint lower (s : string) : string :=
  match s with
  | EmptyString => EmptyString
  | String c r => String (lower_ascii c) (lower r)
  end.

Definition endswith (s suffix : string) : bool :=
  let n := String.length s in
  let m := String.length suffix in
  (m <=? n)%nat && String.eqb (substring (n - m) m s) suffix.

(** [os.path.splitext(path)[1][1:]]: what follows the last dot of the base
    name, leading dots apart. *)
Fixpoint after_last_dot (s : string) (ext : option string) : option string :=
  match s with
  | EmptyString => ext
  | String c r =>
      if Ascii.eqb c "."%char then after_last_dot r (Some EmptyString)
      else after_last_dot r (option_map (fun e => (e ++ String c EmptyString)%string) ext)
  end.

Fixpoint strip_dots (s : string) : string :=
  match s with
  | String c r => if Ascii.eqb c "."%char then strip_dots r else s
  | EmptyString => s
  end.

Definition extension (p : Path) : string :=
  match after_last_dot (strip_dots (basename p)) None with
  | Some e => e
  | None => EmptyString
  end.

Definition audio_extensions : list string :=
  [".mp3"; ".wav"; ".m4a"; ".flac"]%string.

Section Batch.

Context (num : Numerics).
Variable self : AudioProcessor.

(** [load_audio(file_path)] *)
Definition load_audio (file_path : Path) : io AudioSegment :=
  found <~ file_exists file_path ;;
  if negb found then io_raise FileNotFoundError
  else from_file file_path.

(** [process_file(input_path, output_path)] *)
Definition process_file (input_path output_path : Path) : io unit :=
  p1 <~ print (Processing input_path) ;;
  audio <~ load_audio input_path ;;
  silence_ranges <~ io_lift (detect_silence num self audio) ;;
  processed_audio <~ io_lift (remove_silence self audio silence_ranges) ;;
  let output_dir := dirname output_path in
  found <~ dir_exists output_dir ;;
  made <~ (if negb found then makedirs output_dir else io_ret tt) ;;
  written <~ export processed_audio output_path (extension output_path) ;;
  p2 <~ print (Finished output_path) ;;
  print (Removed (List.length silence_ranges)).

(** Lines 207-210: the loop over the audio files; nothing in it catches
    what [process_file] raises. *)
Fixpoint process_each (input_dir output_dir : string)
    (audio_files : list string) : io unit :=
  match audio_files with
  | [] => io_ret tt
  | audio_file :: rest =>
      let input_path := join input_dir audio_file in
      let output_path := join output_dir audio_file in
      done <~ process_file input_path output_path ;;
      process_each input_dir output_dir rest
  end.

(** Lines 196-205: the checks and the listing that precede the loop. *)
Definition list_audio_files (input_dir output_dir : string) : io (list string) :=
  found <~ dir_exists input_dir ;;
  if negb found then io_raise FileNotFoundError
  else
    found <~ dir_exists output_dir ;;
    made <~ (if negb found then makedirs output_dir else io_ret tt) ;;
    names <~ listdir input_dir ;;
    let audio_files :=
      filter (fun f => existsb (endswith (lower f)) audio_extensions) names in
    p <~ print (Found (List.length audio_files)) ;;
    io_ret audio_files.

(** [process_directory(input_dir, output_dir)] *)
Definition process_directory (input_dir output_dir : string) : io unit :=
  audio_files <~ list_audio_files input_dir output_dir ;;
  process_each input_dir output_dir audio_files.

End Batch.

(** ** A rational implementation of the numeric kernels

    Used to run the model on concrete recordings.  The square root is
    exact on squares of rationals and within 2^-32 elsewhere; the
    transform takes cosines and sines from a Taylor polynomial and is exact
    for chunks of 1, 2 and 4 samples. *)

Module Rational.

Definition sqrt (q : Q) : Q :=
  let n := Qnum q in
  let d := Zpos (Qden q) in
  if n <=? 0 then 0%Q
  else Qred (inject_Z (Z.sqrt (n * d * 2 ^ 64)) / inject_Z (d * 2 ^ 32)).

Definition pi : Q := 3141592653589793 # 1000000000000000.

Definition taylor_cos (x : Q) : Q :=
  (1 - x^2 / 2 + x^4 / 24 - x^6 / 720 + x^8 / 40320 - x^10 / 3628800)%Q.

Definition taylor_sin (x : Q) : Q :=
  (x - x^3 / 6 + x^5 / 120 - x^7 / 5040 + x^9 / 362880 - x^11 / 39916800)%Q.

(** cos and sin of [t] turns, 0 <= t < 1. *)
Definition cos_sin_turn (t : Q) : Q * Q :=
  let quadrant := Qfloor (4 * t) in
  let x := Qred ((pi / 2) * (4 * t - inject_Z quadrant)) in
  let c := Qred (taylor_cos x) in
  let s := Qred (taylor_sin x) in
  match quadrant with
  | 0 => (c, s)
  | 1 => ((- s)%Q, c)
  | 2 => ((- c)%Q, (- s)%Q)
  | _ => (s, (- c)%Q)
  end.

Definition dft_bin (samples : list Z) (k : nat) : Q * Q :=
  let n := List.length samples in
  fold_left (fun acc jx =>
      let '(j, x) := jx in
      let '(c, s) := cos_sin_turn (Z.of_nat ((j * k) mod n) # Pos.of_nat n) in
      (Qred (fst acc + inject_Z x * c), Qred (snd acc - inject_Z x * s)))
    (combine (seq 0 n) samples) (0%Q, 0%Q).

Definition dft_abs (samples : list Z) : list Q :=
  map (fun k => let '(re, im) := dft_bin samples k in sqrt (re * re + im * im))
      (seq 0 (List.length samples)).

End Rational.

(** ** Recordings and worlds used as concrete inputs *)

Module Examples.

(** 300 ms at full scale, 10 frames per second: three chunks of one frame. *)
Definition loud_track : AudioSegment :=
  {| frame_rate := 10; max_possible_amplitude := 32768;
     samples := [32767; -32767; 32767] |}.

(** 100 ms of digital silence: a single chunk. *)
Definition silent_chunk : AudioSegment :=
  {| frame_rate := 10; max_possible_amplitude := 32768; samples := [0] |}.

(** 600 ms of digital silence followed by 400 ms at full scale. *)
Definition silence_then_loud : AudioSegment :=
  {| frame_rate := 10; max_possible_amplitude := 32768;
     samples := [0; 0; 0; 0; 0; 0; 32767; 32767; 32767; 32767] |}.

(** One second at 1000 frames per second. *)
Definition one_second : AudioSegment :=
  {| frame_rate := 1000; max_possible_amplitude := 32768;
     samples := map Z.of_nat (seq 0 1000) |}.

(** A directory with an undecodable file listed before a decodable one. *)
Definition two_files : World :=
  {| dirs := ["in"%string];
     files := [(join "in" "a.wav", Undecodable);
               (join "in" "b.wav", Decodable loud_track)];
     encoders := ["wav"%string; "mp3"%string; "flac"%string];
     stdout := [] |}.

(** A chunk of one sample. *)
Definition one_sample : list Z := [1000].

(** 400 ms: full scale, 200 ms of digital silence, full scale. *)
Definition gap_track : AudioSegment :=
  {| frame_rate := 10; max_possible_amplitude := 32768;
     samples := [32767; 0; 0; 32767] |}.

(** A minimum that the 200 ms span meets, and one it misses by 1 ms. *)
Definition min_200 : AudioProcessor :=
  {| threshold_db := -20; min_silence_len := 200; crossfade_len := 50 |}.


(** A loudness series: 600 ms of silence, then 400 ms of loudness 1. *)
Definition step_series : list Q := [0; 0; 0; 0; 0; 0; 1; 1; 1; 1]%Q.

(** No length test: [min_silence_len = 0]. *)
Definition no_minimum : AudioProcessor :=
  {| threshold_db := -20; min_silence_len := 0; crossfade_len := 50 |}.

(** 500 ms of digital silence with a chunk at about -14 dBFS in the
    middle. *)
Definition dip_track : AudioSegment :=
  {| frame_rate := 10; max_possible_amplitude := 32768;
     samples := [0; 0; 6553; 0; 0] |}.


(** Margins of 50 (the default), 100 and 10 ms, minimum 100 ms. *)
Definition margins_50 : AudioProcessor :=
  {| threshold_db := -20; min_silence_len := 100; crossfade_len := 50 |}.

Definition margins_100 : AudioProcessor :=
  {| threshold_db := -20; min_silence_len := 100; crossfade_len := 100 |}.


(** A directory in which every audio file decodes, beside a file that is
    no audio file. *)
Definition good_directory : World :=
  {| dirs := ["in"%string];
     files := [(join "in" "b.WAV", Decodable loud_track);
               (join "in" "notes.txt", Undecodable);
               (join "in" "c.flac", Decodable gap_track)];
     encoders := ["WAV"%string; "wav"%string; "flac"%string];
     stdout := [] |}.

End Examples.

(** * Part II: lemmas and theorems *)

Lemma dft_abs_length (s : list Z) :
  List.length (Rational.dft_abs s) = List.length s.
Proof.
  unfold Rational.dft_abs. now rewrite length_map, length_seq.
Qed.

Definition rational_numerics : Numerics :=
  {| np_sqrt := Rational.sqrt;
     fft_abs := Rational.dft_abs;
     fft_abs_length := dft_abs_length |}.

(** ** Rationals and decibels *)

Lemma Qltb_lt x y : Qltb x y = true <-> (x < y)%Q.
Proof.
  unfold Qltb. rewrite negb_true_iff.
  destruct (Qle_bool y x) eqn:E.
  - apply Qle_bool_iff in E. split; [discriminate | intro H; exfalso; lra].
  - split; [intros _ | reflexivity].
    destruct (Qlt_le_dec x y) as [H|H]; [exact H|].
    apply Qle_bool_iff in H. congruence.
Qed.

Lemma Qltb_ge x y : Qltb x y = false <-> (y <= x)%Q.
Proof.
  unfold Qltb. rewrite negb_false_iff. apply Qle_bool_iff.
Qed.

Lemma Qpower_pos_le_compat (u v : Q) (n : positive) :
  (0 <= u -> u <= v -> u ^ Zpos n <= v ^ Zpos n)%Q.
Proof.
  intros Hu Huv. induction n using Pos.peano_ind.
  - simpl. exact Huv.
  - rewrite Pos2Z.inj_succ. unfold Z.succ.
    rewrite !Qpower_plus' by lia.
    assert (0 <= u ^ Zpos n)%Q by (apply Qpower_0_le; exact Hu).
    change (u ^ 1)%Q with u. change (v ^ 1)%Q with v. nra.
Qed.

Lemma Qpower_pos_lt_compat (u v : Q) (n : positive) :
  (0 <= u -> u < v -> u ^ Zpos n < v ^ Zpos n)%Q.
Proof.
  intros Hu Huv. induction n using Pos.peano_ind.
  - simpl. exact Huv.
  - rewrite Pos2Z.inj_succ. unfold Z.succ.
    rewrite !Qpower_plus' by lia.
    assert (0 <= u ^ Zpos n)%Q by (apply Qpower_0_le; exact Hu).
    change (u ^ 1)%Q with u. change (v ^ 1)%Q with v. nra.
Qed.

Module DBFacts.
Import DB.


Lemma lt_not_ge db thr : lt db thr = true -> ge db thr = false.
Proof.
  destruct db; simpl; try discriminate; auto. intros ->. reflexivity.
Qed.

Lemma even_power_nonneg (x : Q) (q : positive) : (0 <= x ^ (20 * Zpos q))%Q.
Proof.
  assert (E : (x ^ (20 * Zpos q) == (x ^ 2) ^ (10 * Zpos q))%Q).
  { rewrite <- Qpower_mult.
    replace (2 * (10 * Zpos q))%Z with (20 * Zpos q)%Z by ring.
    reflexivity. }
  rewrite E. apply Qpower_0_le. apply Qsqr_nonneg.
Qed.

(** Raising the threshold keeps a value below it: with thr = p/q and
    thr' = p'/q', x^(20q) < 10^p gives x^(20q') < 10^p'. *)
Lemma log20_lt_mono x thr thr' :
  (thr <= thr')%Q -> log20_lt x thr = true -> log20_lt x thr' = true.
Proof.
  unfold log20_lt. intros Hle H.
  apply Qltb_lt in H. apply Qltb_lt.
  destruct thr as [p q], thr' as [p' q']. simpl in *.
  unfold Qle in Hle. simpl in Hle.
  destruct (Qlt_le_dec (x ^ (20 * Zpos q')) (10 ^ p')) as [Hlt|Hge]; [exact Hlt|].
  exfalso.
  assert (H1 : ((x ^ (20 * Zpos q)) ^ Zpos q' < (10 ^ p) ^ Zpos q')%Q).
  { apply Qpower_pos_lt_compat; [apply even_power_nonneg | exact H]. }
  assert (H2 : ((10 ^ p') ^ Zpos q <= (x ^ (20 * Zpos q')) ^ Zpos q)%Q).
  { apply Qpower_pos_le_compat; [apply Qpower_0_le; lra | exact Hge]. }
  rewrite <- !Qpower_mult in H1, H2.
  assert (H3 : (10 ^ (p * Zpos q') <= 10 ^ (p' * Zpos q))%Q).
  { apply Qpower_le_compat_l; [exact Hle | lra]. }
  replace (20 * Zpos q' * Zpos q)%Z with (20 * Zpos q * Zpos q')%Z in H2 by ring.
  lra.
Qed.

Lemma lt_mono db thr thr' :
  (thr <= thr')%Q -> lt db thr = true -> lt db thr' = true.
Proof.
  intros Hle. destruct db as [|x|]; simpl; auto.
  apply log20_lt_mono; exact Hle.
Qed.

Lemma ge_antimono db thr thr' :
  (thr <= thr')%Q -> ge db thr' = true -> ge db thr = true.
Proof.
  intros Hle. destruct db as [|x|]; simpl; auto.
  rewrite !negb_true_iff. intro H.
  destruct (log20_lt x thr) eqn:E; [|reflexivity].
  assert (lt (Log20 x) thr' = true) by (eapply lt_mono; eauto).
  simpl in *. congruence.
Qed.

End DBFacts.

(** ** The complement sweep *)

Lemma sweep_snoc (pre : list (Z * Z)) (s : Z * Z) :
  sweep (pre ++ [s]) = sweep_step (sweep pre) s.
Proof.
  unfold sweep. rewrite fold_left_app. reflexivity.
Qed.

Lemma sweep_app (pre post : list (Z * Z)) :
  sweep (pre ++ post) = fold_left sweep_step post (sweep pre).
Proof.
  unfold sweep. apply fold_left_app.
Qed.

(** From a state on, over ranges whose ends do not decrease: the cursor
    does not move back and every range kept from then on starts at or
    after the cursor's position. *)
Lemma sweep_from_grows (post : list (Z * Z)) :
  forall st,
    ends_nondecreasing (current_pos st) post = true ->
    current_pos st <= current_pos (fold_left sweep_step post st) /\
    exists later,
      kept_ranges (fold_left sweep_step post st) = kept_ranges st ++ later /\
      Forall (fun k => current_pos st <= fst k) later.
Proof.
  induction post as [|[start end_] post IH]; intros st H; simpl in *.
  - split; [lia|]. exists []. now rewrite app_nil_r.
  - apply andb_true_iff in H. destruct H as [Hle Hrest].
    apply Z.leb_le in Hle.
    destruct (IH (sweep_step st (start, end_)) Hrest) as [Hpos [later [Hk Hall]]].
    simpl in Hpos, Hk, Hall. split; [lia|].
    destruct (current_pos st <? start) eqn:E.
    + exists ((current_pos st, start) :: later). split.
      * rewrite Hk, <- app_assoc. reflexivity.
      * constructor; [simpl; lia|].
        eapply Forall_impl; [|exact Hall]. simpl. intros; lia.
    + exists later. split; [exact Hk|].
      eapply Forall_impl; [|exact Hall]. simpl. intros; lia.
Qed.

Lemma ends_nondecreasing_app (pre post : list (Z * Z)) :
  forall st,
    ends_nondecreasing (current_pos st) (pre ++ post) = true ->
    ends_nondecreasing (current_pos st) pre = true /\
    ends_nondecreasing (current_pos (fold_left sweep_step pre st)) post = true.
Proof.
  induction pre as [|[start end_] pre IH]; intros st H; simpl in *.
  - auto.
  - apply andb_true_iff in H. destruct H as [Hle Hrest].
    destruct (IH (sweep_step st (start, end_)) Hrest) as [H1 H2].
    simpl in H1. rewrite Hle, H1. auto.
Qed.

(** C1 (as corrected): line 141 sets the cursor to the end of the range,
    not to the larger of cursor and end.  On a list of silence ranges whose
    ends are non-negative and never decrease (overlapping ranges included),
    processing a range moves the cursor to max(cursor, end), never
    backward, and no kept range emitted afterwards overlaps that range. *)
Theorem sweep_monotone_ends_no_overlap
    (track_len : Z) (silence_ranges pre post : list (Z * Z)) (s : Z * Z) :
  ends_nondecreasing 0 silence_ranges = true ->
  silence_ranges = pre ++ s :: post ->
  current_pos (sweep (pre ++ [s])) = Z.max (current_pos (sweep pre)) (snd s) /\
  current_pos (sweep pre) <= current_pos (sweep (pre ++ [s])) /\
  exists later,
    kept_ranges_of track_len silence_ranges
      = kept_ranges (sweep (pre ++ [s])) ++ later /\
    Forall (fun k => overlaps k s = false) later.
Proof.
  intros Hsorted ->.
  destruct (ends_nondecreasing_app pre (s :: post) sweep_init Hsorted)
    as [_ Hs].
  fold (sweep pre) in Hs. destruct s as [start end_]. simpl in Hs.
  apply andb_true_iff in Hs. destruct Hs as [Hle Hpost].
  apply Z.leb_le in Hle.
  rewrite sweep_snoc. simpl. split; [lia|]. split; [lia|].
  set (st := sweep_step (sweep pre) (start, end_)).
  destruct (sweep_from_grows post st Hpost) as [Hpos [later [Hk Hall]]].
  unfold kept_ranges_of.
  replace (pre ++ (start, end_) :: post) with ((pre ++ [(start, end_)]) ++ post)
    by (rewrite <- app_assoc; reflexivity).
  rewrite sweep_app, sweep_snoc. fold st.
  assert (Hno : forall k, end_ <= fst k -> overlaps k (start, end_) = false).
  { intros k Hk'. unfold overlaps. simpl. apply Z.ltb_ge. lia. }
  destruct (current_pos (fold_left sweep_step post st) <? track_len).
  - exists (later ++ [(current_pos (fold_left sweep_step post st), track_len)]).
    split; [rewrite Hk, app_assoc; reflexivity|].
    apply Forall_app. split.
    + eapply Forall_impl; [|exact Hall]. intros k Hk'. apply Hno. exact Hk'.
    + constructor; [|constructor]. apply Hno. simpl. exact Hpos.
  - exists later. split; [exact Hk|].
    eapply Forall_impl; [|exact Hall]. intros k Hk'. apply Hno. exact Hk'.
Qed.

Lemma sweep_monotone_ends_no_overlap_witness :
  ends_nondecreasing 0 [(100, 400); (300, 700)] = true /\
  current_pos (sweep ([(100, 400)] ++ [(300, 700)])) = 700 /\
  exists later,
    kept_ranges_of 1000 [(100, 400); (300, 700)]
      = kept_ranges (sweep ([(100, 400)] ++ [(300, 700)])) ++ later /\
    Forall (fun k => overlaps k (300, 700) = false) later.
Proof.
  split; [reflexivity|].
  destruct (@sweep_monotone_ends_no_overlap 1000 [(100, 400); (300, 700)]
              [(100, 400)] [] (300, 700) eq_refl eq_refl) as [H1 [_ H2]].
  split; [exact H1 | exact H2].
Defined.

(** C1, the claim as stated fails: on the out-of-order list
    [(10,50); (20,30)] the cursor moves back from 50 to 30, which is not
    max(50, 30), and the kept range (30,100) overlaps the removed range
    (10,50). *)
Lemma sweep_cursor_moves_back :
  current_pos (sweep [(10, 50); (20, 30)]) = 30 /\
  current_pos (sweep [(10, 50)]) = 50 /\
  current_pos (sweep [(10, 50); (20, 30)])
    <> Z.max (current_pos (sweep [(10, 50)])) 30 /\
  kept_ranges_of 100 [(10, 50); (20, 30)] = [(0, 10); (30, 100)] /\
  overlaps (30, 100) (10, 50) = true.
Proof.
  repeat split; try reflexivity. vm_compute. discriminate.
Qed.

(** ** The detector loop as classification followed by a scan *)

Section DetectorFacts.

Context (num : Numerics).
Variable self : AudioProcessor.

Lemma classify_loop_length (a : AudioSegment) (cs : Z) (rms_values : list Q) :
  forall i chunks,
    classify_loop num a cs i rms_values = Ok chunks ->
    List.length chunks = List.length rms_values.
Proof.
  induction rms_values as [|rms rest IH]; intros i chunks H; simpl in H.
  - inversion H. reflexivity.
  - destruct (get_frequency_features num _ _); simpl in H; [|discriminate].
    destruct (classify_loop num a cs (S i) rest) eqn:E; simpl in H; [|discriminate].
    inversion H. simpl. f_equal. eapply IH; eauto.
Qed.

Lemma detect_loop_scan (a : AudioSegment) (cs : Z) (n : nat)
    (rms_values : list Q) :
  forall i st,
    detect_loop num self a cs n i rms_values st
    = (chunks <- classify_loop num a cs i rms_values ;;
       Ok (scan self (len a) n i chunks st)).
Proof.
  induction rms_values as [|rms rest IH]; intros i st; simpl.
  - reflexivity.
  - destruct (get_frequency_features num _ _); simpl; [|reflexivity].
    rewrite IH.
    destruct (classify_loop num a cs (S i) rest); reflexivity.
Qed.

Lemma detect_silence_state_scan (a : AudioSegment) :
  detect_silence_state num self a
  = (chunks <- classify num a ;;
     Ok (scan self (len a) (List.length chunks) 0 chunks detector_init)).
Proof.
  unfold detect_silence_state, classify.
  destruct (rms_values_of num a) as [raw|]; simpl; [|reflexivity].
  destruct (smoothed raw) as [rms_values|]; simpl; [|reflexivity].
  rewrite detect_loop_scan.
  destruct (classify_loop num a (chunk_size_of a) 0 rms_values) eqn:E;
    simpl; [|reflexivity].
  now rewrite (classify_loop_length _ _ _ _ E).
Qed.

Lemma detect_silence_ranges (a : AudioSegment) :
  detect_silence num self a
  = (chunks <- classify num a ;; Ok (detect_ranges self (len a) chunks)).
Proof.
  unfold detect_silence. rewrite detect_silence_state_scan.
  destruct (classify num a); reflexivity.
Qed.

Lemma scan_app (track_len : Z) (n : nat) (xs ys : list (DB.dB * bool)) :
  forall i st,
    scan self track_len n i (xs ++ ys) st
    = scan self track_len n (i + List.length xs) ys (scan self track_len n i xs st).
Proof.
  induction xs as [|[db v] xs IH]; intros i st; simpl.
  - now rewrite Nat.add_0_r.
  - rewrite IH. now rewrite Nat.add_succ_r.
Qed.




(** C8: the filter runs only on series of more than five values; a series
    of at most five values passes through unchanged, and the smoothed
    series is as long as the series it was computed from. *)
Theorem smoothing_gate (rms_values : list Q) :
  exists result_,
    smoothed rms_values = Ok result_ /\
    List.length result_ = List.length rms_values /\
    (if (List.length rms_values <=? 5)%nat
     then result_ = rms_values
     else smooth_rms_values rms_values = Ok result_).
Proof.
  unfold smoothed, smooth_rms_values, Savgol.savgol_filter_5_2.
  destruct (5 <? List.length rms_values)%nat eqn:E.
  - apply Nat.ltb_lt in E.
    assert (E1 : (List.length rms_values <? 5)%nat = false)
      by (apply Nat.ltb_ge; lia).
    assert (E2 : (List.length rms_values <=? 5)%nat = false)
      by (apply Nat.leb_gt; lia).
    rewrite E1, E2. eexists. split; [reflexivity|].
    split; [|reflexivity]. now rewrite length_map, length_seq.
  - apply Nat.ltb_ge in E.
    assert (E2 : (List.length rms_values <=? 5)%nat = true)
      by (apply Nat.leb_le; lia).
    rewrite E2. exists rms_values. auto.
Qed.


End DetectorFacts.



(** ** Candidates, the length test and the margins *)

Section Candidates.

Variable self : AudioProcessor.
Variable track_len : Z.
Variable n : nat.

Let bare : AudioProcessor :=
  {| threshold_db := threshold_db self; min_silence_len := 0; crossfade_len := 0 |}.

Lemma transition_keeps_pace (i : nat) db v st st0 :
  (i < n)%nat ->
  keeps_pace self track_len i st st0 ->
  keeps_pace self track_len (S i)
    (transition self track_len n i db v st)
    (transition bare (100 * Z.of_nat n) n i db v st0).
Proof.
  intros Hi (Hs & Hstart & Hr).
  remember (100 * Z.of_nat n) as L0 eqn:HL0.
  unfold transition, bare; simpl.
  rewrite Hs.
  destruct (DB.lt db (threshold_db self) && negb (is_silence st0) && negb v) eqn:E1.
  - repeat split; simpl; auto; try lia.
  - destruct ((DB.ge db (threshold_db self) || (Z.of_nat i =? Z.of_nat n - 1) || v)
              && is_silence st0) eqn:E2.
    + apply andb_true_iff in E2. destruct E2 as [_ Hin].
      destruct (Hstart Hin) as (Heq & H0 & H1).
      assert (E0 : (0 <=? Z.of_nat i * 100 - silence_start st0) = true)
        by (apply Z.leb_le; lia).
      rewrite E0. rewrite Heq.
      assert (Ec : (Z.max 0 (silence_start st0 - 0),
                    Z.min L0 (Z.of_nat i * 100 + 0))
                   = (silence_start st0, Z.of_nat i * 100))
        by (f_equal; lia).
      rewrite Ec.
      destruct (min_silence_len self <=? Z.of_nat i * 100 - silence_start st0) eqn:E3.
      * repeat split; simpl; try discriminate.
        rewrite filter_app, map_app, Hr. simpl. unfold long_enough. simpl.
        rewrite E3. reflexivity.
      * repeat split; simpl; try discriminate.
        rewrite filter_app, map_app, Hr. simpl. unfold long_enough. simpl.
        rewrite E3. simpl. now rewrite app_nil_r.
    + repeat split; auto.
      * apply Hstart; assumption.
      * apply Hstart; assumption.
      * destruct (Hstart H) as (_ & _ & H1). lia.
Qed.

Lemma scan_keeps_pace (chunks : list (DB.dB * bool)) :
  forall i st st0,
    (i + List.length chunks = n)%nat ->
    keeps_pace self track_len i st st0 ->
    keeps_pace self track_len n
      (scan self track_len n i chunks st)
      (scan bare (100 * Z.of_nat n) n i chunks st0).
Proof.
  induction chunks as [|[db v] chunks IH]; intros i st st0 Hlen Hp; simpl in *.
  - replace n with i by lia. exact Hp.
  - apply IH; [lia|]. apply transition_keeps_pace; [lia | exact Hp].
Qed.

End Candidates.

(** The ranges of a run are its long enough candidates, widened by the
    margin and clamped to the track. *)
Lemma detect_ranges_candidates (self : AudioProcessor) (track_len : Z)
    (chunks : list (DB.dB * bool)) :
  detect_ranges self track_len chunks
  = map (expand self track_len)
        (filter (long_enough self) (candidates (threshold_db self) chunks)).
Proof.
  unfold detect_ranges, candidates, detect_ranges.
  refine (proj2 (proj2 (@scan_keeps_pace self track_len (List.length chunks)
                          chunks 0%nat detector_init detector_init eq_refl _))).
  repeat split; simpl; try discriminate.
Qed.

Section Runs.

Variable self : AudioProcessor.
Variable track_len : Z.
Variable n : nat.


(** A candidate that is open when the last chunk is reached is closed
    there, at the start of that chunk, and put to the length test. *)
Lemma transition_last_closes (i : nat) db v st :
  is_silence st = true ->
  S i = n ->
  let c := (silence_start st, Z.of_nat i * 100) in
  is_silence (transition self track_len n i db v st) = false /\
  silence_ranges (transition self track_len n i db v st)
  = silence_ranges st
    ++ (if long_enough self c then [expand self track_len c] else []).
Proof.
  intros Hs Hn c. unfold transition. rewrite Hs.
  rewrite andb_false_r. simpl.
  assert (E : (Z.of_nat i =? Z.of_nat n - 1) = true)
    by (apply Z.eqb_eq; lia).
  rewrite E, orb_true_r. simpl.
  unfold c, long_enough, expand. simpl.
  destruct (min_silence_len self <=? Z.of_nat i * 100 - silence_start st);
    simpl; split; auto. now rewrite app_nil_r.
Qed.

(** A quiet last chunk outside a candidate opens one that is never
    closed: the [elif] that closes at the last chunk is not reached. *)
Lemma transition_last_opens (i : nat) db st :
  is_silence st = false ->
  DB.lt db (threshold_db self) = true ->
  is_silence (transition self track_len n i db false st) = true /\
  silence_ranges (transition self track_len n i db false st) = silence_ranges st.
Proof.
  intros Hs Hlt. unfold transition. rewrite Hs, Hlt. simpl. auto.
Qed.

End Runs.




(** C3, the code at the failing input: one chunk of digital silence and
    [min_silence_len = 0].  The chunk opens a candidate; the [elif] that
    closes candidates on the last chunk is not reached, the loop ends
    inside the candidate and no range is returned, although a candidate of
    length 0 passes the length test. *)
Theorem last_chunk_candidate_never_closed :
  detect_silence_state rational_numerics Examples.no_minimum Examples.silent_chunk
  = Ok {| silence_ranges := []; is_silence := true; silence_start := 0 |} /\
  detect_silence rational_numerics Examples.no_minimum Examples.silent_chunk
  = Ok [] /\
  long_enough Examples.no_minimum (0, 0) = true.
Proof.
  repeat split; vm_compute; reflexivity.
Qed.

(** ** Negative loudness after smoothing *)

Lemma to_db_negative (rms : Q) (max_amplitude : positive) :
  (rms < 0)%Q -> to_db rms max_amplitude = DB.NaN.
Proof.
  intro H. unfold to_db, DB.np_log10_times20.
  assert (Hx : (rms / inject_Z (Zpos max_amplitude) < 0)%Q).
  { apply Qlt_shift_div_r; [reflexivity | lra]. }
  assert (E1 : Qeq_bool rms 0 = false).
  { destruct (Qeq_bool rms 0) eqn:E; [|reflexivity].
    apply Qeq_bool_iff in E. lra. }
  assert (E2 : Qltb 0 (rms / inject_Z (Zpos max_amplitude)) = false)
    by (apply Qltb_ge; lra).
  assert (E3 : Qeq_bool (rms / inject_Z (Zpos max_amplitude)) 0 = false).
  { destruct (Qeq_bool (rms / inject_Z (Zpos max_amplitude)) 0) eqn:E;
      [|reflexivity].
    apply Qeq_bool_iff in E. lra. }
  now rewrite E1, E2, E3.
Qed.

Lemma to_db_nonnegative (rms : Q) (max_amplitude : positive) :
  (0 <= rms)%Q -> to_db rms max_amplitude <> DB.NaN.
Proof.
  intro H. unfold to_db, DB.np_log10_times20.
  destruct (Qeq_bool rms 0) eqn:E1; [discriminate|].
  assert (Hpos : (0 < rms)%Q).
  { destruct (Qlt_le_dec 0 rms) as [Hlt|Hle]; [exact Hlt|].
    assert (rms == 0)%Q by lra.
    apply Qeq_bool_iff in H0. congruence. }
  assert (Hx : (0 < rms / inject_Z (Zpos max_amplitude))%Q).
  { apply Qlt_shift_div_l; [reflexivity | lra]. }
  apply Qltb_lt in Hx. rewrite Hx. discriminate.
Qed.

(** C10 (as corrected): the conversion is guarded by [rms == 0] only.  A
    negative loudness gives nan, a non-negative one does not, and smoothing
    a non-negative series can give a negative value.  Both comparisons with
    nan are false, so a nan chunk never opens a candidate; but inside a
    candidate it does not close it either: unless it is the last chunk or
    carries voice the state is left as it was. *)
Theorem nan_neither_opens_nor_closes (self : AudioProcessor) (track_len : Z)
    (n i : nat) (st : DetectorState) (has_voice : bool)
    (rms : Q) (max_amplitude : positive) (thr : Q) :
  ((rms < 0)%Q -> to_db rms max_amplitude = DB.NaN) /\
  ((0 <= rms)%Q -> to_db rms max_amplitude <> DB.NaN) /\
  DB.lt DB.NaN thr = false /\
  DB.ge DB.NaN thr = false /\
  (is_silence st = false ->
   transition self track_len n i DB.NaN has_voice st = st) /\
  (Z.of_nat i <> Z.of_nat n - 1 ->
   transition self track_len n i DB.NaN false st = st) /\
  (exists raw result_,
     Forall (fun r => (0 <= r)%Q) raw /\
     smoothed raw = Ok result_ /\
     Exists (fun r => (r < 0)%Q) result_).
Proof.
  split; [apply to_db_negative|].
  split; [apply to_db_nonnegative|].
  split; [reflexivity|]. split; [reflexivity|].
  split; [|split].
  - intro Hs. unfold transition. simpl. rewrite Hs. simpl.
    now rewrite andb_false_r.
  - intro Hi. unfold transition. simpl.
    apply Z.eqb_neq in Hi. rewrite Hi. reflexivity.
  - exists Examples.step_series. eexists. split; [|split].
    + repeat constructor; apply Qle_bool_iff; reflexivity.
    + vm_compute. reflexivity.
    + do 4 apply Exists_cons_tl. apply Exists_cons_hd. reflexivity.
Qed.

Lemma nan_neither_opens_nor_closes_witness :
  (-3 # 35 < 0)%Q /\
  to_db (-3 # 35) 32768 = DB.NaN /\
  (4 <> 10 - 1)%Z /\
  transition default_processor 1000 10 4 DB.NaN false
    {| silence_ranges := []; is_silence := true; silence_start := 0 |}
  = {| silence_ranges := []; is_silence := true; silence_start := 0 |}.
Proof.
  assert (Hneg : (-3 # 35 < 0)%Q) by reflexivity.
  assert (Hi : Z.of_nat 4 <> Z.of_nat 10 - 1) by (simpl; lia).
  destruct (@nan_neither_opens_nor_closes default_processor 1000 10%nat 4%nat
              {| silence_ranges := []; is_silence := true; silence_start := 0 |}
              false (-3 # 35) 32768%positive (-20))
    as (H1 & _ & _ & _ & _ & H6 & _).
  split; [exact Hneg|]. split; [exact (H1 Hneg)|].
  split; [lia|]. exact (H6 Hi).
Defined.

(** C10, the claim as stated fails: in the recording of 600 ms of silence
    followed by 400 ms at full scale, smoothing makes the loudness of
    chunk 4 negative, its dB value is nan, and the chunk is not treated as
    non-silent: the candidate opened at 0 ms stays open across it, is closed
    by chunk 5 at 500 ms and is removed as (0, 550), the nan chunk
    included.  Had chunk 4 closed the candidate, as a loud chunk does, it
    would have been 400 ms long and no range would have been returned. *)
Lemma nan_chunk_removed_as_silence :
  exists chunks,
    classify rational_numerics Examples.silence_then_loud = Ok chunks /\
    nth_error chunks 4 = Some (DB.NaN, false) /\
    is_silence (scan default_processor 1000 10 0 (firstn 5 chunks) detector_init)
    = true /\
    detect_silence rational_numerics default_processor Examples.silence_then_loud
    = Ok [(0, 550)] /\
    detect_ranges default_processor 1000
      (firstn 4 chunks ++ (DB.Log20 1, false) :: skipn 5 chunks) = [].
Proof.
  eexists. split; [vm_compute; reflexivity|].
  repeat split; vm_compute; reflexivity.
Qed.

(** ** The splice loop and pydub's crossfade *)

Lemma py_round_nonneg (x : Q) : (0 <= x)%Q -> 0 <= py_round x.
Proof.
  intro H. unfold py_round.
  assert (Hf : 0 <= Qfloor x).
  { change 0 with (Qfloor 0). apply Qfloor_resp_le. exact H. }
  destruct (Qltb _ _); [exact Hf|].
  destruct (Qltb _ _); [lia|].
  destruct (Z.even _); lia.
Qed.

Lemma len_nonneg (a : AudioSegment) : 0 <= len a.
Proof.
  unfold len. apply py_round_nonneg.
  apply Qmult_le_0_compat; [discriminate|].
  apply Qle_shift_div_l; [reflexivity|].
  rewrite Qmult_0_l. change 0%Q with (inject_Z 0).
  rewrite <- Zle_Qle. lia.
Qed.

(** [append] returns only when the crossfade fits into both segments. *)
Lemma append_ok (seg1 seg2 out : AudioSegment) (crossfade : Z) :
  append seg1 seg2 crossfade = Ok out ->
  crossfade <= len seg1 /\ crossfade <= len seg2.
Proof.
  unfold append. intro H.
  destruct (crossfade =? 0) eqn:E0.
  - apply Z.eqb_eq in E0. subst crossfade.
    split; apply len_nonneg.
  - destruct (len seg1 <? crossfade) eqn:E1; [discriminate|].
    destruct (len seg2 <? crossfade) eqn:E2; [discriminate|].
    apply Z.ltb_ge in E1, E2. auto.
Qed.

Lemma splice_app (self : AudioProcessor) (audio : AudioSegment)
    (pre post : list (Z * Z)) :
  forall i joined,
    splice self audio i (pre ++ post) joined
    = (mid <- splice self audio i pre joined ;;
       splice self audio (i + List.length pre) post mid).
Proof.
  induction pre as [|range pre IH]; intros i joined; simpl.
  - now rewrite Nat.add_0_r.
  - destruct (kept_segment self audio i range) as [segment|]; simpl;
      [|reflexivity].
    destruct (if 0 <? len joined
              then append joined segment (crossfade_len self)
              else Ok segment) as [joined'|]; simpl; [|reflexivity].
    rewrite IH. now rewrite Nat.add_succ_r.
Qed.

(** C9: [remove_silence] is not total.  For the one-second recording and
    the single range (10, 500) the first kept segment is 10 ms long, shorter
    than the crossfade of 50 ms, and the append raises.  Whenever
    [remove_silence] returns a buffer for a non-empty list, every join it
    made had at least [crossfade_len] ms on both sides: in the result so
    far and in the segment appended. *)
Theorem reconstruction_needs_long_segments :
  (exists self audio silence_ranges first,
     silence_ranges <> [] /\
     getitem audio (Some 0) (Some 10) = Ok first /\
     len first < crossfade_len self /\
     remove_silence self audio silence_ranges = Raise ValueError) /\
  forall self audio silence_ranges out,
    silence_ranges <> [] ->
    remove_silence self audio silence_ranges = Ok out ->
    forall pre range post joined segment,
      kept_ranges_of (len audio) silence_ranges = pre ++ range :: post ->
      splice self audio 0 pre empty = Ok joined ->
      0 < len joined ->
      kept_segment self audio (List.length pre) range = Ok segment ->
      crossfade_len self <= len joined /\ crossfade_len self <= len segment.
Proof.
  split.
  - exists default_processor, Examples.one_second, [(10, 500)].
    eexists. split; [discriminate|]. split; [vm_compute; reflexivity|].
    split; vm_compute; reflexivity.
  - intros self audio silence_ranges out Hne Hok pre range post joined segment
           Hkept Hpre Hlen Hseg.
    unfold remove_silence in Hok.
    destruct silence_ranges as [|r rs]; [congruence|].
    rewrite Hkept, splice_app, Hpre in Hok. simpl in Hok.
    rewrite Hseg in Hok. simpl in Hok.
    apply Z.ltb_lt in Hlen. rewrite Hlen in Hok.
    destruct (append joined segment (crossfade_len self)) as [joined'|] eqn:E;
      [|discriminate].
    eapply append_ok; eauto.
Qed.

Lemma reconstruction_needs_long_segments_witness :
  exists out joined segment,
    remove_silence default_processor Examples.one_second [(100, 500)] = Ok out /\
    splice default_processor Examples.one_second 0 [(0, 100)] empty = Ok joined /\
    kept_segment default_processor Examples.one_second 1 (500, 1000) = Ok segment /\
    0 < len joined /\
    50 <= len joined /\ 50 <= len segment.
Proof.
  eexists. eexists. eexists.
  assert (Hne : [(100, 500)] <> @nil (Z * Z)) by discriminate.
  split; [vm_compute; reflexivity|].
  split; [vm_compute; reflexivity|].
  split; [vm_compute; reflexivity|].
  split; [vm_compute; reflexivity|].
  refine (proj2 reconstruction_needs_long_segments default_processor
            Examples.one_second [(100, 500)] _ Hne _
            [(0, 100)] (500, 1000) [] _ _ _ _ _ _);
    vm_compute; reflexivity.
Defined.

(** ** The batch loop *)

Section BatchFacts.

Context (num : Numerics).
Variable self : AudioProcessor.

Lemma process_each_app (input_dir output_dir : string)
    (pre post : list string) :
  forall w,
    process_each num self input_dir output_dir (pre ++ post) w
    = match process_each num self input_dir output_dir pre w with
      | (Ok _, w') => process_each num self input_dir output_dir post w'
      | (Raise e, w') => (Raise e, w')
      end.
Proof.
  induction pre as [|f pre IH]; intro w; simpl.
  - reflexivity.
  - unfold io_bind.
    destruct (process_file num self (join input_dir f) (join output_dir f) w)
      as [[u|e] w']; [apply IH | reflexivity].
Qed.

(** C2 (as corrected): [process_directory] has no handler around
    [process_file].  When the files before [audio_file] were processed and
    [process_file] raises on [audio_file], [process_directory] ends with
    that exception in the world the failure left: the files after it are
    not processed and nothing is reported for them. *)
Theorem batch_stops_at_first_failure (input_dir output_dir : string)
    (pre post : list string) (audio_file : string) (e : Exception)
    (w w0 w1 w2 : World) :
  list_audio_files input_dir output_dir w = (Ok (pre ++ audio_file :: post), w0) ->
  process_each num self input_dir output_dir pre w0 = (Ok tt, w1) ->
  process_file num self (join input_dir audio_file) (join output_dir audio_file) w1
  = (Raise e, w2) ->
  process_directory num self input_dir output_dir w = (Raise e, w2).
Proof.
  intros Hlist Hpre Hfail. unfold process_directory, io_bind.
  rewrite Hlist, process_each_app, Hpre. simpl.
  unfold io_bind. rewrite Hfail. reflexivity.
Qed.

End BatchFacts.

Lemma batch_stops_at_first_failure_witness :
  exists w0 w2,
    list_audio_files "in" "out" Examples.two_files
    = (Ok ([] ++ "a.wav"%string :: ["b.wav"%string]), w0) /\
    process_each rational_numerics default_processor "in" "out" [] w0 = (Ok tt, w0) /\
    process_file rational_numerics default_processor
      (join "in" "a.wav") (join "out" "a.wav") w0 = (Raise CouldntDecodeError, w2) /\
    process_directory rational_numerics default_processor "in" "out"
      Examples.two_files = (Raise CouldntDecodeError, w2).
Proof.
  eexists. eexists.
  assert (H1 : list_audio_files "in" "out" Examples.two_files
               = (Ok ([] ++ "a.wav"%string :: ["b.wav"%string]),
                  snd (list_audio_files "in" "out" Examples.two_files)))
    by (vm_compute; reflexivity).
  assert (H3 : process_file rational_numerics default_processor
                 (join "in" "a.wav") (join "out" "a.wav")
                 (snd (list_audio_files "in" "out" Examples.two_files))
               = (Raise CouldntDecodeError,
                  snd (process_file rational_numerics default_processor
                         (join "in" "a.wav") (join "out" "a.wav")
                         (snd (list_audio_files "in" "out" Examples.two_files)))))
    by (vm_compute; reflexivity).
  split; [exact H1|]. split; [reflexivity|]. split; [exact H3|].
  exact (@batch_stops_at_first_failure rational_numerics default_processor
           "in" "out" [] ["b.wav"%string] "a.wav" CouldntDecodeError
           _ _ _ _ H1 eq_refl H3).
Defined.

(** C2, the claim as stated fails: in a directory that lists an
    undecodable [a.wav] before a decodable [b.wav], the failure on [a.wav]
    is not caught: [process_directory] raises it, [b.wav] is never
    processed and no output is written. *)
Lemma batch_aborts_on_undecodable_file :
  process_directory rational_numerics default_processor "in" "out"
    Examples.two_files
  = (Raise CouldntDecodeError,
     {| dirs := ["out"%string; "in"%string];
        files := files Examples.two_files;
        encoders := encoders Examples.two_files;
        stdout := [Found 2; Processing (join "in" "a.wav")] |}) /\
  fst (process_file rational_numerics default_processor
         (join "in" "b.wav") (join "out" "b.wav") Examples.two_files) = Ok tt.
Proof.
  split; vm_compute; reflexivity.
Qed.

(** ** Raising the threshold *)

Lemma total_duration_snoc (acc : list (Z * Z)) (r : Z * Z) :
  total_duration (acc ++ [r]) = total_duration acc + (snd r - fst r).
Proof.
  induction acc as [|x acc IH]; simpl; [lia|]. rewrite IH. lia.
Qed.

Section Monotone.

Variable self : AudioProcessor.
Variables thr thr' : Q.
Variable track_len : Z.
Variable n : nat.
Hypothesis Hthr : (thr <= thr')%Q.
Hypothesis Hcf : 0 <= crossfade_len self <= 50.
Hypothesis Hlen : 100 * (Z.of_nat n - 1) <= track_len.

Let lo := with_threshold self thr.
Let hi := with_threshold self thr'.

(** The comparisons of one chunk with the two thresholds are tied by
    [thr <= thr']; [prune] closes the combinations that cannot occur. *)
Ltac prune M := try (exfalso; discriminate (M eq_refl)).

Ltac use_flags :=
  repeat match goal with
         | H : true = true -> _ |- _ => specialize (H eq_refl)
         | H : false = true -> _ |- _ => clear H
         end.

(** All cases of one pass of the loop body in both runs. *)
Ltac both_transitions Hlo Hcredit Elast :=
  let M1 := fresh "M" in let M2 := fresh "M" in
  let M3 := fresh "M" in let M4 := fresh "M" in
  match goal with
  | |- context [transition _ _ _ _ ?db ?v ?st_lo] =>
    match goal with
    | |- context [transition hi _ _ _ db v ?st_hi] =>
      pose proof (@DBFacts.lt_mono db thr thr' Hthr) as M1;
      pose proof (@DBFacts.ge_antimono db thr thr' Hthr) as M2;
      pose proof (@DBFacts.lt_not_ge db thr) as M3;
      pose proof (@DBFacts.lt_not_ge db thr') as M4;
      unfold transition, lo, hi, with_threshold, lags, widened in *;
      cbn [threshold_db min_silence_len crossfade_len];
      rewrite Elast;
      destruct (DB.lt db thr), (DB.lt db thr'), (DB.ge db thr), (DB.ge db thr');
      prune M1; prune M2; prune M3; prune M4; clear M1 M2 M3 M4;
      destruct v;
      let Slo := fresh "Slo" in let Shi := fresh "Shi" in
      destruct (is_silence st_lo) eqn:Slo;
      destruct (is_silence st_hi) eqn:Shi; cbn [andb orb negb];
      try (exfalso; destruct (Hlo eq_refl) as [Hx _]; discriminate Hx);
      repeat match goal with
             | |- context [?a <=? ?b] => destruct (Z.leb_spec a b)
             end;
      cbn [is_silence silence_start silence_ranges];
      rewrite ?total_duration_snoc; cbn [fst snd];
      rewrite ?Slo, ?Shi;
      use_flags;
      destruct Hcredit as [Hc | (Hin & e & Hc1 & Hc2 & Hc3 & Hc4)];
      try discriminate Hin;
      use_flags
    end
  end.

(** A chunk that is not the last one keeps the two runs tied. *)
Lemma transition_lags (i : nat) db v st_lo st_hi :
  (S i < n)%nat ->
  lags self track_len i st_lo st_hi ->
  lags self track_len (S i)
    (transition lo track_len n i db v st_lo)
    (transition hi track_len n i db v st_hi).
Proof.
  intros Hi (Hlo & Hhi & Hcredit).
  assert (Elast : (Z.of_nat i =? Z.of_nat n - 1) = false)
    by (apply Z.eqb_neq; lia).
  both_transitions Hlo Hcredit Elast.
  all: (split; [intro X; try discriminate X; repeat split; try reflexivity; lia|]).
  all: (split; [intro X; try discriminate X; repeat split; try reflexivity; lia|]).
  all: try (left; lia).
  all: try (right; split; [reflexivity|]; exists (Z.of_nat i * 100);
            repeat split; intros; try discriminate; lia).
  all: try (right; split; [reflexivity|]; exists e;
            repeat split; intros; try discriminate; lia).
Qed.

(** After the last chunk the run at the higher threshold has caught up. *)
Lemma transition_last_lags (i : nat) db v st_lo st_hi :
  S i = n ->
  lags self track_len i st_lo st_hi ->
  total_duration (silence_ranges (transition lo track_len n i db v st_lo))
  <= total_duration (silence_ranges (transition hi track_len n i db v st_hi)).
Proof.
  intros Hi (Hlo & Hhi & Hcredit).
  assert (Elast : (Z.of_nat i =? Z.of_nat n - 1) = true)
    by (apply Z.eqb_eq; lia).
  both_transitions Hlo Hcredit Elast.
  all: lia.
Qed.

Lemma scan_lags (chunks : list (DB.dB * bool)) :
  forall i st_lo st_hi,
    (i + List.length chunks < n)%nat ->
    lags self track_len i st_lo st_hi ->
    lags self track_len (i + List.length chunks)
      (scan lo track_len n i chunks st_lo)
      (scan hi track_len n i chunks st_hi).
Proof.
  induction chunks as [|[db v] chunks IH]; intros i st_lo st_hi Hi Hl;
    simpl in *.
  - now rewrite Nat.add_0_r.
  - rewrite <- Nat.add_succ_comm. apply IH; [lia|].
    apply transition_lags; [lia | exact Hl].
Qed.

Lemma lags_init : lags self track_len 0 detector_init detector_init.
Proof.
  unfold lags. simpl. repeat split; try discriminate. left. lia.
Qed.

Lemma detect_ranges_monotone (chunks : list (DB.dB * bool)) :
  List.length chunks = n ->
  total_duration (detect_ranges lo track_len chunks)
  <= total_duration (detect_ranges hi track_len chunks).
Proof.
  intro Hn. unfold detect_ranges. rewrite Hn.
  destruct chunks as [|c chunks] using rev_ind; [simpl; lia|].
  clear IHchunks. destruct c as [db v].
  rewrite length_app in Hn. simpl in Hn.
  rewrite !scan_app. simpl.
  apply transition_last_lags; [lia|].
  apply (@scan_lags chunks 0%nat detector_init detector_init); [lia|].
  apply lags_init.
Qed.

End Monotone.




(** ** What the detector hands to the sweep *)

Lemma ends_nondecreasing_snoc (acc : list (Z * Z)) (r : Z * Z) :
  forall lo,
    ends_nondecreasing lo acc = true ->
    Forall (fun x => snd x <= snd r) acc ->
    lo <= snd r ->
    ends_nondecreasing lo (acc ++ [r]) = true.
Proof.
  induction acc as [|[s e] acc IH]; intros lo Hs Hall Hlo; simpl in *.
  - destruct r as [s e]. simpl in *.
    apply andb_true_iff. split; [apply Z.leb_le; exact Hlo | reflexivity].
  - apply andb_true_iff in Hs. destruct Hs as [Hle Hs].
    inversion Hall as [|x xs Hx Hxs]; subst. simpl in Hx.
    rewrite Hle. simpl. apply IH; auto.
Qed.

Section DetectorEnds.

Variable self : AudioProcessor.
Variable track_len : Z.
Variable n : nat.
Hypothesis Htrack : 0 <= track_len.
Hypothesis Hcf : 0 <= crossfade_len self.

Let ends_bounded (i : nat) (st : DetectorState) : Prop :=
  ends_nondecreasing 0 (silence_ranges st) = true /\
  Forall (fun r => snd r <= Z.min track_len (Z.of_nat i * 100 + crossfade_len self))
         (silence_ranges st).

Lemma transition_ends_bounded (i : nat) db v st :
  ends_bounded i st ->
  ends_bounded (S i) (transition self track_len n i db v st).
Proof.
  intros [Hs Hall].
  assert (Hall' : Forall (fun r => snd r <= Z.min track_len
                            (Z.of_nat (S i) * 100 + crossfade_len self))
                         (silence_ranges st)).
  { eapply Forall_impl; [|exact Hall]. cbv beta. intros; lia. }
  unfold transition.
  destruct (DB.lt db (threshold_db self) && negb (is_silence st) && negb v);
    [split; assumption|].
  destruct ((DB.ge db (threshold_db self) || (Z.of_nat i =? Z.of_nat n - 1) || v)
            && is_silence st); [|split; assumption].
  destruct (min_silence_len self <=? Z.of_nat i * 100 - silence_start st);
    [|split; assumption].
  split; cbn [silence_ranges].
  - apply ends_nondecreasing_snoc; [exact Hs | exact Hall | cbn [snd]; lia].
  - apply Forall_app. split; [exact Hall'|].
    constructor; [cbn [snd]; lia | constructor].
Qed.

Lemma scan_ends_bounded (chunks : list (DB.dB * bool)) :
  forall i st,
    ends_bounded i st ->
    ends_bounded (i + List.length chunks) (scan self track_len n i chunks st).
Proof.
  induction chunks as [|[db v] chunks IH]; intros i st H; simpl.
  - now rewrite Nat.add_0_r.
  - rewrite <- Nat.add_succ_comm. apply IH.
    apply transition_ends_bounded. exact H.
Qed.

End DetectorEnds.

(** The ranges [detect_silence] returns have non-negative ends that never
    decrease: they are in the domain on which the sweep is right. *)
Lemma detect_silence_ends_nondecreasing (num : Numerics)
    (self : AudioProcessor) (audio : AudioSegment) (ranges : list (Z * Z)) :
  0 <= crossfade_len self ->
  detect_silence num self audio = Ok ranges ->
  ends_nondecreasing 0 ranges = true.
Proof.
  intros Hcf H. rewrite detect_silence_ranges in H.
  destruct (classify num audio) as [chunks|]; simpl in H; [|discriminate].
  inversion H. unfold detect_ranges.
  refine (proj1 (@scan_ends_bounded self (len audio) (List.length chunks)
                   (len_nonneg audio) Hcf chunks 0%nat detector_init _)).
  split; [reflexivity | constructor].
Qed.

(** ** The filter on a known series

    The series of scipy's documentation of [savgol_filter]; the values
    there are these, printed with two decimals. *)
Lemma savgol_scipy_fixture :
  match Savgol.savgol_filter_5_2 [2; 2; 5; 2; 1; 0; 1; 4; 9]%Q with
  | Ok y => map Qred y
  | Raise _ => []
  end
  = [58 # 35; 111 # 35; 124 # 35; 20 # 7; 23 # 35; 6 # 35; 1; 4; 9]%Q.
Proof.
  vm_compute. reflexivity.
Qed.

(** ** The detector returns *)

Lemma py_slice_nonempty (l : list Z) (s e : Z) :
  0 <= s -> s < Z.of_nat (List.length l) -> s < e -> py_slice l s e <> [].
Proof.
  intros H0 Hs He. unfold py_slice, py_index.
  assert (E1 : (s <? 0) = false) by (apply Z.ltb_ge; lia).
  assert (E2 : (e <? 0) = false) by (apply Z.ltb_ge; lia).
  rewrite E1, E2.
  assert (Hk : exists k, Z.to_nat (Z.min e (Z.of_nat (List.length l))
                                   - Z.min s (Z.of_nat (List.length l))) = S k).
  { exists (Nat.pred (Z.to_nat (Z.min e (Z.of_nat (List.length l))
                                - Z.min s (Z.of_nat (List.length l))))). lia. }
  destruct Hk as [k ->].
  destruct (skipn (Z.to_nat (Z.min s (Z.of_nat (List.length l)))) l) eqn:E.
  - apply (f_equal (@List.length Z)) in E. rewrite length_skipn in E.
    simpl in E. lia.
  - simpl. discriminate.
Qed.

Lemma filter_all {A} (f : A -> bool) (l : list A) :
  Forall (fun x => f x = true) l -> filter f l = l.
Proof.
  induction 1 as [|x l Hx Hl IH]; simpl; [reflexivity|].
  now rewrite Hx, IH.
Qed.

(** The gate of lines 86-88 always returns, with as many values as it
    was given. *)
Lemma smoothed_returns (rms_values : list Q) :
  exists result_,
    smoothed rms_values = Ok result_ /\
    List.length result_ = List.length rms_values.
Proof.
  unfold smoothed, smooth_rms_values, Savgol.savgol_filter_5_2.
  destruct (5 <? List.length rms_values)%nat eqn:E.
  - apply Nat.ltb_lt in E.
    assert (E1 : (List.length rms_values <? 5)%nat = false)
      by (apply Nat.ltb_ge; lia).
    rewrite E1. eexists. split; [reflexivity|].
    now rewrite length_map, length_seq.
  - exists rms_values. auto.
Qed.

(** On a chunk with samples the classifier returns. *)
Lemma classifier_returns (num : Numerics) (samples : list Z)
    (sample_rate : positive) :
  samples <> [] ->
  exists b, get_frequency_features num samples sample_rate = Ok b.
Proof.
  intro Hne. unfold get_frequency_features.
  destruct samples as [|x xs]; [congruence|].
  destruct (Qltb 0 (total_energy num (x :: xs))) eqn:E.
  - apply Qltb_lt in E. unfold np_div.
    destruct (Qeq_bool (total_energy num (x :: xs)) 0) eqn:Ez.
    + apply Qeq_bool_iff in Ez. lra.
    + simpl. eexists. reflexivity.
  - eexists. reflexivity.
Qed.

Section Totality.

Context (num : Numerics).
Variable audio : AudioSegment.

Let N := Z.of_nat (List.length (samples audio)).
Let cs := chunk_size_of audio.

(** The number of chunks: ceil(len(samples) / chunk_size). *)
Let m := Z.to_nat ((N + cs - 1) / cs).

Hypothesis Hrate : 10 <= Zpos (frame_rate audio).

Lemma chunk_size_div : cs = Zpos (frame_rate audio) / 10.
Proof.
  unfold cs, chunk_size_of, py_int. simpl.
  rewrite Pos.mul_1_r. apply Z.quot_div_nonneg; lia.
Qed.

Lemma chunk_size_pos : 0 < cs.
Proof.
  rewrite chunk_size_div. apply Z.div_str_pos. lia.
Qed.

Lemma last_chunk_starts_inside (k : nat) :
  (k < m)%nat -> Z.of_nat k * cs < N.
Proof.
  intro Hk. pose proof chunk_size_pos as Hcs.
  assert (Hm : cs * ((N + cs - 1) / cs) <= N + cs - 1)
    by (apply Z.mul_div_le; exact Hcs).
  assert (Hq : 0 <= (N + cs - 1) / cs)
    by (apply Z.div_pos; unfold N; lia).
  unfold m in Hk. nia.
Qed.

Lemma rms_values_of_length :
  exists rms_values,
    rms_values_of num audio = Ok rms_values /\ List.length rms_values = m.
Proof.
  pose proof chunk_size_pos as Hcs.
  unfold rms_values_of, py_range0. fold cs N.
  assert (E1 : (cs =? 0) = false) by (apply Z.eqb_neq; lia).
  assert (E2 : (cs <? 0) = false) by (apply Z.ltb_ge; lia).
  rewrite E1, E2. simpl. fold m.
  eexists. split; [reflexivity|].
  rewrite length_map, filter_all.
  - now rewrite !length_map, length_seq.
  - apply Forall_forall. intros chunk Hin.
    apply in_map_iff in Hin. destruct Hin as [start [<- Hin]].
    apply in_map_iff in Hin. destruct Hin as [k [<- Hin]].
    apply in_seq in Hin.
    apply Nat.ltb_lt.
    assert (Hne : py_slice (samples audio) (Z.of_nat k * cs)
                    (Z.of_nat k * cs + cs) <> []).
    { apply py_slice_nonempty; [lia | | lia].
      apply last_chunk_starts_inside. lia. }
    destruct (py_slice _ _ _); [congruence | simpl; lia].
Qed.

Lemma classify_loop_total (rms_values : list Q) :
  forall i,
    (i + List.length rms_values <= m)%nat ->
    exists chunks, classify_loop num audio cs i rms_values = Ok chunks.
Proof.
  pose proof chunk_size_pos as Hcs.
  induction rms_values as [|rms rest IH]; intros i Hi; simpl in *.
  - eexists. reflexivity.
  - assert (Hstart : Z.of_nat i * cs < N)
      by (apply last_chunk_starts_inside; lia).
    destruct (@classifier_returns num
                (py_slice (samples audio) (Z.of_nat i * cs)
                   (Z.min ((Z.of_nat i + 1) * cs)
                      (Z.of_nat (List.length (samples audio)))))
                (frame_rate audio)) as [b Hb].
    { apply py_slice_nonempty; fold N; lia. }
    rewrite Hb. simpl.
    destruct (IH (S i)) as [chunks Hc]; [lia|].
    rewrite Hc. simpl. eexists. reflexivity.
Qed.

(** At 10 frames per second or more [classify] returns, with one entry
    per chunk. *)
Lemma classify_total :
  exists chunks,
    classify num audio = Ok chunks /\ List.length chunks = m.
Proof.
  unfold classify.
  destruct rms_values_of_length as [raw [-> Hraw]]. simpl.
  destruct (smoothed_returns raw) as [rms_values [-> Hlen]]. simpl.
  destruct (@classify_loop_total rms_values 0%nat) as [chunks Hc]; [lia|].
  fold cs. rewrite Hc. exists chunks. split; [reflexivity|].
  rewrite (classify_loop_length _ _ _ _ _ Hc). lia.
Qed.

(** When the frame rate is a multiple of 10 a chunk is exactly 100 ms and
    the chunk times stay inside the track. *)
Lemma chunk_times_inside_track :
  Zpos (frame_rate audio) mod 10 = 0 ->
  100 * (Z.of_nat m - 1) <= len audio.
Proof.
  intro Hmod. pose proof chunk_size_pos as Hcs.
  assert (Hfr : Zpos (frame_rate audio) = 10 * cs).
  { rewrite chunk_size_div.
    rewrite (Z.div_mod (Zpos (frame_rate audio)) 10) at 1 by lia. lia. }
  destruct (Nat.eq_dec m 0) as [Hm0|Hm0].
  - rewrite Hm0. pose proof (len_nonneg audio). simpl. lia.
  - assert (Hlast : Z.of_nat (m - 1) * cs < N)
      by (apply last_chunk_starts_inside; lia).
    unfold len. fold N.
    set (x := (1000 * (inject_Z N / inject_Z (Zpos (frame_rate audio))))%Q).
    assert (Hx : (inject_Z (100 * (Z.of_nat m - 1)) <= x)%Q).
    { unfold x. rewrite Hfr.
      assert (Hcsq : (0 < inject_Z cs)%Q)
        by (change 0%Q with (inject_Z 0); rewrite <- Zlt_Qlt; exact Hcs).
      assert (E : (1000 * (inject_Z N / inject_Z (10 * cs))
                   == 100 * inject_Z N / inject_Z cs)%Q).
      { rewrite inject_Z_mult. field. intro H0. rewrite H0 in Hcsq.
        discriminate. }
      rewrite E. apply Qle_shift_div_l; [exact Hcsq|].
      change 100%Q with (inject_Z 100).
      rewrite <- !inject_Z_mult, <- Zle_Qle. nia. }
    assert (Hf : 100 * (Z.of_nat m - 1) <= Qfloor x).
    { rewrite <- (Qfloor_Z (100 * (Z.of_nat m - 1))).
      apply Qfloor_resp_le. exact Hx. }
    unfold py_round.
    destruct (Qltb _ _); [exact Hf|].
    destruct (Qltb _ _); [lia|].
    destruct (Z.even _); lia.
Qed.

End Totality.

(** [detect_silence] returns on every recording of at least 10 frames
    per second. *)
Lemma detect_silence_total (num : Numerics) (self : AudioProcessor)
    (audio : AudioSegment) :
  10 <= Zpos (frame_rate audio) ->
  exists ranges, detect_silence num self audio = Ok ranges.
Proof.
  intro Hrate. destruct (classify_total num audio Hrate) as [chunks [Hc _]].
  rewrite detect_silence_ranges, Hc. simpl. eexists. reflexivity.
Qed.

(** Threshold monotonicity for ordinary recordings: a frame rate that is
    a multiple of 10 and the default margin or less. *)
Lemma threshold_monotone_standard_rate (num : Numerics)
    (self : AudioProcessor) (audio : AudioSegment) (thr thr' : Q) :
  Zpos (frame_rate audio) mod 10 = 0 ->
  (thr <= thr')%Q ->
  0 <= crossfade_len self <= 50 ->
  exists removed removed',
    detect_silence num (with_threshold self thr) audio = Ok removed /\
    detect_silence num (with_threshold self thr') audio = Ok removed' /\
    total_duration removed <= total_duration removed'.
Proof.
  intros Hmod Hthr Hcf.
  assert (Hrate : 10 <= Zpos (frame_rate audio)).
  { destruct (Z_lt_le_dec (Zpos (frame_rate audio)) 10) as [Hlt|Hge];
      [|exact Hge].
    rewrite Z.mod_small in Hmod by lia. lia. }
  destruct (classify_total num audio Hrate) as [chunks [Hc Hn]].
  pose proof (chunk_times_inside_track audio Hrate Hmod) as Hin.
  rewrite <- Hn in Hin.
  exists (detect_ranges (with_threshold self thr) (len audio) chunks).
  exists (detect_ranges (with_threshold self thr') (len audio) chunks).
  rewrite !detect_silence_ranges, Hc. simpl.
  split; [reflexivity|]. split; [reflexivity|].
  eapply detect_ranges_monotone; eauto.
Qed.

(** * Part III: further properties of the code *)

(** ** The complement sweep on any list *)

Lemma sweep_step_kept_nonempty (st : SweepState) (range : Z * Z) :
  Forall (fun k => fst k < snd k) (kept_ranges st) ->
  Forall (fun k => fst k < snd k) (kept_ranges (sweep_step st range)).
Proof.
  intro H. destruct range as [start end_]. simpl.
  destruct (current_pos st <? start) eqn:E; [|exact H].
  apply Forall_app. split; [exact H|].
  constructor; [|constructor]. simpl. apply Z.ltb_lt. exact E.
Qed.

Lemma fold_sweep_kept_nonempty (ranges : list (Z * Z)) :
  forall st,
    Forall (fun k => fst k < snd k) (kept_ranges st) ->
    Forall (fun k => fst k < snd k)
           (kept_ranges (fold_left sweep_step ranges st)).
Proof.
  induction ranges as [|r ranges IH]; intros st H; simpl; [exact H|].
  apply IH. apply sweep_step_kept_nonempty. exact H.
Qed.

(** X1: whatever the silence ranges are (unsorted, overlapping, outside
    the track), every kept range the sweep emits is non-empty: its start is
    strictly before its end. *)
Theorem kept_ranges_nonempty (track_len : Z) (silence_ranges : list (Z * Z)) :
  Forall (fun k => fst k < snd k) (kept_ranges_of track_len silence_ranges).
Proof.
  unfold kept_ranges_of.
  assert (H : Forall (fun k => fst k < snd k) (kept_ranges (sweep silence_ranges)))
    by (apply fold_sweep_kept_nonempty; constructor).
  destruct (current_pos (sweep silence_ranges) <? track_len) eqn:E; [|exact H].
  apply Forall_app. split; [exact H|].
  constructor; [|constructor]. simpl. apply Z.ltb_lt. exact E.
Qed.

Lemma fold_sweep_conserves (ranges : list (Z * Z)) :
  forall st,
    in_order (current_pos st) ranges = true ->
    total_duration (kept_ranges (fold_left sweep_step ranges st))
    + total_duration ranges + current_pos st
    = total_duration (kept_ranges st)
      + current_pos (fold_left sweep_step ranges st).
Proof.
  induction ranges as [|[start end_] ranges IH]; intros st H; simpl in *.
  - lia.
  - apply andb_true_iff in H. destruct H as [Hle Hrest].
    apply Z.leb_le in Hle.
    specialize (IH (sweep_step st (start, end_)) Hrest). simpl in IH.
    destruct (current_pos st <? start) eqn:E.
    + rewrite total_duration_snoc in IH. simpl in IH. lia.
    + apply Z.ltb_ge in E. lia.
Qed.

Lemma fold_sweep_cursor_bound (track_len : Z) (ranges : list (Z * Z)) :
  forall st,
    current_pos st <= track_len ->
    Forall (fun r => snd r <= track_len) ranges ->
    current_pos (fold_left sweep_step ranges st) <= track_len.
Proof.
  induction ranges as [|[start end_] ranges IH]; intros st Hc Hall; simpl.
  - exact Hc.
  - inversion Hall as [|x xs Hx Hxs]; subst. apply IH; [exact Hx | exact Hxs].
Qed.

(** The complement of ranges that follow one another on the track. *)
Lemma sweep_conserves (track_len : Z) (ranges : list (Z * Z)) :
  0 <= track_len ->
  in_order 0 ranges = true ->
  Forall (fun r => snd r <= track_len) ranges ->
  total_duration (kept_ranges_of track_len ranges)
  = track_len - total_duration ranges.
Proof.
  intros Hlen Hord Hall. unfold kept_ranges_of.
  pose proof (fold_sweep_conserves ranges sweep_init Hord) as Hc.
  pose proof (@fold_sweep_cursor_bound track_len ranges sweep_init Hlen Hall) as Hb.
  fold (sweep ranges) in Hc, Hb. simpl in Hc.
  destruct (current_pos (sweep ranges) <? track_len) eqn:E.
  - rewrite total_duration_snoc. simpl. lia.
  - apply Z.ltb_ge in E. lia.
Qed.

(** X2: when the silence ranges follow one another on the track (the
    first starts at 0 or later, each ends no later than the next starts,
    all end within the track), the kept ranges and the silence ranges
    share the track between them: the kept durations add up to the track
    length minus the silence durations. *)
Theorem kept_plus_removed_is_track (track_len : Z)
    (silence_ranges : list (Z * Z)) :
  0 <= track_len ->
  in_order 0 silence_ranges = true ->
  Forall (fun r => snd r <= track_len) silence_ranges ->
  total_duration (kept_ranges_of track_len silence_ranges)
  + total_duration silence_ranges = track_len.
Proof.
  intros Hlen Hord Hall.
  rewrite (sweep_conserves Hlen Hord Hall). lia.
Qed.

Lemma kept_plus_removed_is_track_witness :
  total_duration (kept_ranges_of 1000 [(100, 400); (400, 700)])
  + total_duration [(100, 400); (400, 700)] = 1000.
Proof.
  apply (@kept_plus_removed_is_track 1000 [(100, 400); (400, 700)]).
  - lia.
  - reflexivity.
  - repeat constructor; simpl; lia.
Defined.

(** ** The shape of the detector's output *)

Lemma in_order_snoc (acc : list (Z * Z)) (r : Z * Z) :
  forall lo,
    in_order lo acc = true ->
    Forall (fun x => snd x <= fst r) acc ->
    lo <= fst r ->
    in_order lo (acc ++ [r]) = true.
Proof.
  induction acc as [|[s e] acc IH]; intros lo Hs Hall Hlo; simpl in *.
  - destruct r as [s e]. simpl in *.
    apply andb_true_iff. split; [apply Z.leb_le; exact Hlo | reflexivity].
  - apply andb_true_iff in Hs. destruct Hs as [Hle Hs].
    inversion Hall as [|x xs Hx Hxs]; subst. simpl in Hx.
    rewrite Hle. simpl. apply IH; auto.
Qed.

Section DetectorShape.

Variable self : AudioProcessor.
Variable track_len : Z.
Variable n : nat.
Hypothesis Hcf : 0 <= crossfade_len self <= 50.

(** Before chunk [i]: the ranges so far follow one another and end at
    least one chunk, less the margin, before a candidate that is open
    (or before chunk [i], when none is). *)
Let tidy (i : nat) (st : DetectorState) : Prop :=
  in_order 0 (silence_ranges st) = true /\
  Forall (on_track track_len) (silence_ranges st) /\
  (is_silence st = true ->
   silence_start st <= Z.of_nat i * 100 /\
   Forall (fun r => snd r <= silence_start st - 100 + crossfade_len self)
          (silence_ranges st)) /\
  (is_silence st = false ->
   Forall (fun r => snd r <= Z.of_nat i * 100 - 100 + crossfade_len self)
          (silence_ranges st)).

Lemma transition_tidy (i : nat) db v st :
  tidy i st -> tidy (S i) (transition self track_len n i db v st).
Proof.
  intros (Hord & Htrack & Hin & Hout). unfold transition.
  destruct (is_silence st) eqn:Hs.
  - destruct (Hin eq_refl) as [Hstart Hends]. clear Hin Hout.
    rewrite andb_false_r. cbn [andb].
    destruct ((DB.ge db (threshold_db self)
               || (Z.of_nat i =? Z.of_nat n - 1) || v) && true).
    + destruct (min_silence_len self <=? Z.of_nat i * 100 - silence_start st).
      * unfold tidy. cbn [silence_ranges is_silence silence_start].
        split; [|split; [|split]].
        -- apply in_order_snoc; [exact Hord | | cbn [fst]; lia].
           eapply Forall_impl; [|exact Hends]. cbv beta. cbn [fst]. intros; lia.
        -- apply Forall_app. split; [exact Htrack|].
           constructor; [unfold on_track; cbn [fst snd]; lia | constructor].
        -- discriminate.
        -- intros _. apply Forall_app. split.
           ++ eapply Forall_impl; [|exact Hends]. cbv beta. intros; lia.
           ++ constructor; [cbn [snd]; lia | constructor].
      * unfold tidy. cbn [silence_ranges is_silence silence_start].
        split; [exact Hord|]. split; [exact Htrack|].
        split; [discriminate|]. intros _.
        eapply Forall_impl; [|exact Hends]. cbv beta. intros; lia.
    + unfold tidy. rewrite Hs.
      split; [exact Hord|]. split; [exact Htrack|].
      split; [|discriminate]. intros _. split; [lia | exact Hends].
  - specialize (Hout eq_refl). clear Hin. cbn [negb andb].
    rewrite andb_true_r, andb_false_r.
    destruct (DB.lt db (threshold_db self) && negb v).
    + unfold tidy. cbn [silence_ranges is_silence silence_start].
      split; [exact Hord|]. split; [exact Htrack|].
      split; [|discriminate]. intros _. split; [lia|].
      eapply Forall_impl; [|exact Hout]. cbv beta. intros; lia.
    + unfold tidy. rewrite Hs.
      split; [exact Hord|]. split; [exact Htrack|].
      split; [discriminate|]. intros _.
      eapply Forall_impl; [|exact Hout]. cbv beta. intros; lia.
Qed.

Lemma scan_tidy (chunks : list (DB.dB * bool)) :
  forall i st,
    tidy i st ->
    tidy (i + List.length chunks) (scan self track_len n i chunks st).
Proof.
  induction chunks as [|[db v] chunks IH]; intros i st H; simpl.
  - now rewrite Nat.add_0_r.
  - rewrite <- Nat.add_succ_comm. apply IH. apply transition_tidy. exact H.
Qed.

End DetectorShape.

Lemma detect_ranges_tidy (self : AudioProcessor) (track_len : Z)
    (chunks : list (DB.dB * bool)) :
  0 <= crossfade_len self <= 50 ->
  in_order 0 (detect_ranges self track_len chunks) = true /\
  Forall (on_track track_len) (detect_ranges self track_len chunks).
Proof.
  intro Hcf. unfold detect_ranges.
  destruct (@scan_tidy self track_len (List.length chunks) Hcf chunks
              0%nat detector_init) as (H1 & H2 & _).
  - simpl. repeat split; try discriminate; constructor.
  - split; assumption.
Qed.

Lemma detect_silence_tidy (num : Numerics) (self : AudioProcessor)
    (audio : AudioSegment) (ranges : list (Z * Z)) :
  0 <= crossfade_len self <= 50 ->
  detect_silence num self audio = Ok ranges ->
  in_order 0 ranges = true /\ Forall (on_track (len audio)) ranges.
Proof.
  intros Hcf H. rewrite detect_silence_ranges in H.
  destruct (classify num audio) as [chunks|]; simpl in H; [|discriminate].
  inversion H. eapply detect_ranges_tidy; eauto.
Qed.

(** X3: with a margin of at most 50 ms (0 <= crossfade_len <= 50, the
    default included) the ranges [detect_silence] returns lie on the track
    (0 <= start, end <= len(audio)) and follow one another: each range
    ends no later than the next one starts. *)
Theorem detected_ranges_ordered_on_track (num : Numerics)
    (self : AudioProcessor) (audio : AudioSegment) (ranges : list (Z * Z)) :
  0 <= crossfade_len self <= 50 ->
  detect_silence num self audio = Ok ranges ->
  in_order 0 ranges = true /\
  Forall (fun r => 0 <= fst r /\ snd r <= len audio) ranges.
Proof.
  intros Hcf H. exact (detect_silence_tidy num self audio Hcf H).
Qed.

Lemma detected_ranges_ordered_on_track_witness :
  detect_silence rational_numerics Examples.margins_50 Examples.dip_track
  = Ok [(0, 250); (250, 450)] /\
  in_order 0 [(0, 250); (250, 450)] = true /\
  Forall (fun r => 0 <= fst r /\ snd r <= len Examples.dip_track)
         [(0, 250); (250, 450)].
Proof.
  assert (H : detect_silence rational_numerics Examples.margins_50
                Examples.dip_track = Ok [(0, 250); (250, 450)])
    by (vm_compute; reflexivity).
  split; [exact H|].
  apply (@detected_ranges_ordered_on_track rational_numerics
           Examples.margins_50 Examples.dip_track _); [simpl; lia | exact H].
Defined.

(** X4: detection followed by the sweep, with a margin of at most 50 ms:
    the durations of the kept ranges that [remove_silence] computes from
    the detector's ranges add up to the length of the recording minus the
    total duration of the detected ranges. *)
Theorem kept_duration_after_detection (num : Numerics)
    (self : AudioProcessor) (audio : AudioSegment) (ranges : list (Z * Z)) :
  0 <= crossfade_len self <= 50 ->
  detect_silence num self audio = Ok ranges ->
  total_duration (kept_ranges_of (len audio) ranges)
  = len audio - total_duration ranges.
Proof.
  intros Hcf H.
  destruct (detect_silence_tidy num self audio Hcf H) as [Hord Htrack].
  apply sweep_conserves; [apply len_nonneg | exact Hord|].
  eapply Forall_impl; [|exact Htrack]. intros r [_ Hr]. exact Hr.
Qed.

Lemma kept_duration_after_detection_witness :
  detect_silence rational_numerics Examples.min_200 Examples.gap_track
  = Ok [(50, 350)] /\
  total_duration (kept_ranges_of (len Examples.gap_track) [(50, 350)])
  = len Examples.gap_track - total_duration [(50, 350)].
Proof.
  assert (H : detect_silence rational_numerics Examples.min_200
                Examples.gap_track = Ok [(50, 350)])
    by (vm_compute; reflexivity).
  split; [exact H|].
  apply (@kept_duration_after_detection rational_numerics Examples.min_200
           Examples.gap_track _); [simpl; lia | exact H].
Defined.

(** X5: with a non-negative margin of any size the ends of the ranges
    [detect_silence] returns are non-negative and never decrease, so on the
    detector's output the cursor of the sweep in [remove_silence] is never
    set back. *)
Theorem detected_ranges_keep_cursor_forward (num : Numerics)
    (self : AudioProcessor) (audio : AudioSegment)
    (ranges pre post : list (Z * Z)) (s : Z * Z) :
  0 <= crossfade_len self ->
  detect_silence num self audio = Ok ranges ->
  ranges = pre ++ s :: post ->
  ends_nondecreasing 0 ranges = true /\
  current_pos (sweep pre) <= current_pos (sweep (pre ++ [s])).
Proof.
  intros Hcf H ->.
  pose proof (detect_silence_ends_nondecreasing num self audio Hcf H) as Hends.
  split; [exact Hends|].
  destruct (ends_nondecreasing_app pre (s :: post) sweep_init Hends) as [_ Hs].
  fold (sweep pre) in Hs. destruct s as [start end_]. simpl in Hs.
  apply andb_true_iff in Hs. destruct Hs as [Hle _].
  apply Z.leb_le in Hle. rewrite sweep_snoc. simpl. exact Hle.
Qed.

Lemma detected_ranges_keep_cursor_forward_witness :
  detect_silence rational_numerics
    (with_threshold Examples.margins_100 (-20)) Examples.dip_track
  = Ok ([(0, 300)] ++ (200, 500) :: []) /\
  current_pos (sweep [(0, 300)]) <= current_pos (sweep ([(0, 300)] ++ [(200, 500)])).
Proof.
  assert (H : detect_silence rational_numerics
                (with_threshold Examples.margins_100 (-20)) Examples.dip_track
              = Ok ([(0, 300)] ++ (200, 500) :: []))
    by (vm_compute; reflexivity).
  split; [exact H|].
  refine (proj2 (@detected_ranges_keep_cursor_forward rational_numerics
                   (with_threshold Examples.margins_100 (-20))
                   Examples.dip_track _ [(0, 300)] [] (200, 500) _ H eq_refl)).
  simpl. lia.
Defined.

(** ** What a candidate is made of *)

Section CandidateChunks.

Variable thr : Q.
Variable chunks : list (DB.dB * bool).

Let n := List.length chunks.
Let bare : AudioProcessor :=
  {| threshold_db := thr; min_silence_len := 0; crossfade_len := 0 |}.

(** Chunk [j] is neither at or above the threshold nor voiced. *)
Let calm (j : nat) : Prop :=
  forall db v, nth_error chunks j = Some (db, v) ->
               DB.ge db thr = false /\ v = false.

Let sound (i : nat) (st : DetectorState) : Prop :=
  (forall c j, In c (silence_ranges st) ->
               fst c <= Z.of_nat j * 100 < snd c -> calm j) /\
  (is_silence st = true ->
   exists a, silence_start st = Z.of_nat a * 100 /\ (a < i)%nat /\
             forall j, (a <= j < i)%nat -> calm j).

Lemma transition_sound (i : nat) db v st :
  (i < n)%nat ->
  nth_error chunks i = Some (db, v) ->
  sound i st ->
  sound (S i) (transition bare (100 * Z.of_nat n) n i db v st).
Proof.
  intros Hi Hnth [Hclosed Hopen].
  remember (100 * Z.of_nat n) as L0 eqn:HL0.
  unfold transition, bare. cbn [threshold_db min_silence_len crossfade_len].
  destruct (is_silence st) eqn:Hs.
  - destruct (Hopen eq_refl) as (a & Ha & Hai & Hcalm). clear Hopen.
    rewrite andb_false_r. cbn [andb]. rewrite andb_true_r.
    destruct (DB.ge db thr || (Z.of_nat i =? Z.of_nat n - 1) || v) eqn:Hclose.
    + assert (E : (0 <=? Z.of_nat i * 100 - silence_start st) = true)
        by (apply Z.leb_le; lia).
      rewrite E. split; cbn [silence_ranges is_silence]; [|discriminate].
      intros c j Hin Hj. apply in_app_or in Hin. destruct Hin as [Hin|Hin].
      * eapply Hclosed; eauto.
      * destruct Hin as [<-|[]]. cbn [fst snd] in Hj.
        apply Hcalm. lia.
    + apply orb_false_iff in Hclose. destruct Hclose as [Hclose Hv].
      apply orb_false_iff in Hclose. destruct Hclose as [Hge _].
      split; [exact Hclosed|]. intros _. exists a.
      split; [exact Ha|]. split; [lia|].
      intros j Hj. destruct (Nat.eq_dec j i) as [->|Hne].
      * intros db' v' Hnth'. rewrite Hnth in Hnth'. inversion Hnth'; subst.
        auto.
      * apply Hcalm. lia.
  - cbn [negb andb]. rewrite andb_true_r, andb_false_r.
    destruct (DB.lt db thr && negb v) eqn:Hopen'.
    + apply andb_true_iff in Hopen'. destruct Hopen' as [Hlt Hv].
      apply negb_true_iff in Hv.
      split; cbn [silence_ranges is_silence silence_start]; [exact Hclosed|].
      intros _. exists i. split; [reflexivity|]. split; [lia|].
      intros j Hj. assert (j = i) by lia. subst j.
      intros db' v' Hnth'. rewrite Hnth in Hnth'. inversion Hnth'; subst.
      split; [apply DBFacts.lt_not_ge; exact Hlt | reflexivity].
    + split; [exact Hclosed|]. rewrite Hs. discriminate.
Qed.

Lemma scan_sound (rest : list (DB.dB * bool)) :
  forall pre st,
    chunks = pre ++ rest ->
    sound (List.length pre) st ->
    sound n (scan bare (100 * Z.of_nat n) n (List.length pre) rest st).
Proof.
  induction rest as [|[db v] rest IH]; intros pre st Hsplit Hs; simpl.
  - assert (n = List.length pre)
      by (unfold n; rewrite Hsplit, app_nil_r; reflexivity).
    congruence.
  - assert (Hnth : nth_error chunks (List.length pre) = Some (db, v)).
    { rewrite Hsplit, nth_error_app2 by lia.
      rewrite Nat.sub_diag. reflexivity. }
    assert (Hi : (List.length pre < n)%nat).
    { unfold n. rewrite Hsplit, length_app. simpl. lia. }
    replace (S (List.length pre)) with (List.length (pre ++ [(db, v)]))
      by (rewrite length_app; simpl; lia).
    apply IH.
    + rewrite <- app_assoc. exact Hsplit.
    + rewrite length_app. simpl. rewrite Nat.add_1_r.
      apply transition_sound; assumption.
Qed.

Lemma candidates_sound :
  forall c j, In c (candidates thr chunks) ->
              fst c <= Z.of_nat j * 100 < snd c -> calm j.
Proof.
  unfold candidates, detect_ranges. fold n bare.
  refine (proj1 (@scan_sound chunks [] detector_init eq_refl _)).
  split; simpl; [intros c j [] | discriminate].
Qed.

End CandidateChunks.

(** X6: a candidate never takes in a loud or a voiced chunk: every chunk
    whose start time falls inside a candidate (before the margins are
    added) has a dB value that is not at or above the threshold and
    carries no voice flag. *)
Theorem candidate_chunks_are_quiet (thr : Q) (chunks : list (DB.dB * bool))
    (c : Z * Z) (j : nat) (db : DB.dB) (has_voice : bool) :
  In c (candidates thr chunks) ->
  nth_error chunks j = Some (db, has_voice) ->
  fst c <= Z.of_nat j * 100 < snd c ->
  DB.ge db thr = false /\ has_voice = false.
Proof.
  intros Hin Hnth Hj.
  exact (@candidates_sound thr chunks c j Hin Hj db has_voice Hnth).
Qed.

Lemma candidate_chunks_are_quiet_witness :
  In (0, 200) (candidates (-20) [(DB.NegInf, false); (DB.NaN, false);
                                 (DB.Log20 1, false)]) /\
  DB.ge DB.NaN (-20) = false /\ false = false.
Proof.
  assert (Hin : In (0, 200) (candidates (-20) [(DB.NegInf, false); (DB.NaN, false);
                                               (DB.Log20 1, false)]))
    by (vm_compute; left; reflexivity).
  split; [exact Hin|].
  apply (@candidate_chunks_are_quiet (-20)
           [(DB.NegInf, false); (DB.NaN, false); (DB.Log20 1, false)]
           (0, 200) 1%nat DB.NaN false Hin eq_refl).
  simpl. lia.
Defined.

(** ** Recordings too short to hold a silence *)

Section ShortTracks.

Variable self : AudioProcessor.
Variable track_len : Z.
Variable n : nat.
Hypothesis Hshort : 100 * (Z.of_nat n - 1) < min_silence_len self.

Let barren (st : DetectorState) : Prop :=
  silence_ranges st = [] /\ (is_silence st = true -> 0 <= silence_start st).

Lemma transition_barren (i : nat) db v st :
  (i < n)%nat -> barren st ->
  barren (transition self track_len n i db v st).
Proof.
  intros Hi [Hr Hs]. unfold transition.
  destruct (DB.lt db (threshold_db self) && negb (is_silence st) && negb v).
  - split; cbn [silence_ranges silence_start]; [exact Hr | lia].
  - destruct ((DB.ge db (threshold_db self)
               || (Z.of_nat i =? Z.of_nat n - 1) || v) && is_silence st) eqn:E.
    + apply andb_true_iff in E. destruct E as [_ Hin].
      specialize (Hs Hin).
      assert (E : (min_silence_len self <=? Z.of_nat i * 100 - silence_start st)
                  = false) by (apply Z.leb_gt; lia).
      rewrite E. split; [exact Hr | discriminate].
    + split; assumption.
Qed.

Lemma scan_barren (chunks : list (DB.dB * bool)) :
  forall i st,
    (i + List.length chunks <= n)%nat -> barren st ->
    barren (scan self track_len n i chunks st).
Proof.
  induction chunks as [|[db v] chunks IH]; intros i st Hi H; simpl in *.
  - exact H.
  - apply IH; [lia|]. apply transition_barren; [lia | exact H].
Qed.

End ShortTracks.

(** X7: a candidate is measured from the start of its first chunk to the
    start of the chunk that closes it, the last chunk at the latest.  So a
    recording of [n] chunks with 100 * (n - 1) < min_silence_len (with the
    defaults: up to five chunks, half a second) never yields a range,
    whatever its content, and comes out of detection and reconstruction
    unchanged. *)
Theorem short_recording_unchanged (num : Numerics) (self : AudioProcessor)
    (audio : AudioSegment) (chunks : list (DB.dB * bool)) :
  classify num audio = Ok chunks ->
  100 * (Z.of_nat (List.length chunks) - 1) < min_silence_len self ->
  detect_silence num self audio = Ok [] /\
  (silence_ranges <- detect_silence num self audio ;;
   remove_silence self audio silence_ranges) = Ok audio.
Proof.
  intros Hc Hshort.
  assert (Hd : detect_silence num self audio = Ok []).
  { rewrite detect_silence_ranges, Hc. simpl. unfold detect_ranges.
    destruct (@scan_barren self (len audio) (List.length chunks) Hshort chunks
                0%nat detector_init) as [Hr _].
    - simpl. lia.
    - split; [reflexivity | discriminate].
    - now rewrite Hr. }
  split; [exact Hd|]. rewrite Hd. reflexivity.
Qed.

Lemma short_recording_unchanged_witness :
  100 * (Z.of_nat 5 - 1) < min_silence_len default_processor /\
  detect_silence rational_numerics default_processor Examples.dip_track = Ok [] /\
  (silence_ranges <- detect_silence rational_numerics default_processor
                       Examples.dip_track ;;
   remove_silence default_processor Examples.dip_track silence_ranges)
  = Ok Examples.dip_track.
Proof.
  split; [simpl; lia|].
  refine (@short_recording_unchanged rational_numerics default_processor
            Examples.dip_track
            [(DB.NegInf, false); (DB.NegInf, false);
             (DB.Log20 (6553 # 32768), false);
             (DB.NegInf, false); (DB.NegInf, false)] _ _).
  - vm_compute. reflexivity.
  - simpl. lia.
Defined.

(** ** When the detector raises *)

Lemma chunk_size_zero (audio : AudioSegment) :
  Zpos (frame_rate audio) < 10 -> chunk_size_of audio = 0.
Proof.
  intro H. unfold chunk_size_of, py_int. simpl. rewrite Pos.mul_1_r.
  apply Z.quot_small. lia.
Qed.

(** X8: [detect_silence] raises exactly on recordings of fewer than 10
    frames per second, where the chunk size [int(frame_rate * 0.1)] is 0 and
    [range] refuses the step: there it raises [ValueError], even on an
    empty recording; at 10 frames per second or more it returns a list of
    ranges, whatever the samples are. *)
Theorem detect_silence_raises_iff_slow (num : Numerics) (self : AudioProcessor)
    (audio : AudioSegment) :
  (Zpos (frame_rate audio) < 10 ->
   detect_silence num self audio = Raise ValueError) /\
  (10 <= Zpos (frame_rate audio) ->
   exists ranges, detect_silence num self audio = Ok ranges).
Proof.
  split; intro H.
  - unfold detect_silence, detect_silence_state, rms_values_of, py_range0.
    rewrite (chunk_size_zero audio H). reflexivity.
  - destruct (classify_total num audio H) as [chunks [Hc _]].
    rewrite detect_silence_ranges, Hc. simpl. eexists. reflexivity.
Qed.

Lemma detect_silence_raises_iff_slow_witness :
  10 <= Zpos (frame_rate Examples.silence_then_loud) /\
  exists ranges,
    detect_silence rational_numerics default_processor
      Examples.silence_then_loud = Ok ranges.
Proof.
  assert (H : 10 <= Zpos (frame_rate Examples.silence_then_loud))
    by (simpl; lia).
  split; [exact H|].
  exact (proj2 (detect_silence_raises_iff_slow rational_numerics
                  default_processor Examples.silence_then_loud) H).
Defined.

(** ** Reconstruction without a join *)

Lemma len_empty : len empty = 0.
Proof. reflexivity. Qed.





(** ** Files *)

Lemma path_eqb_refl (p : Path) : path_eqb p p = true.
Proof.
  unfold path_eqb. now rewrite !String.eqb_refl.
Qed.

Lemma path_eqb_eq (p q : Path) : path_eqb p q = true -> p = q.
Proof.
  unfold path_eqb. intro H. apply andb_true_iff in H. destruct H as [H1 H2].
  apply String.eqb_eq in H1, H2. destruct p, q. simpl in *. congruence.
Qed.

Lemma find_after_export (p out : Path) (l : list (Path * FileData)) :
  p <> out ->
  find (fun entry => path_eqb p (fst entry))
       (filter (fun entry => negb (path_eqb out (fst entry))) l)
  = find (fun entry => path_eqb p (fst entry)) l.
Proof.
  intro Hne. induction l as [|[q d] l IH]; simpl; [reflexivity|].
  destruct (path_eqb out q) eqn:E; simpl.
  - apply path_eqb_eq in E. subst q.
    destruct (path_eqb p out) eqn:E'; [|exact IH].
    apply path_eqb_eq in E'. congruence.
  - now rewrite IH.
Qed.

Section FileFacts.

Context (num : Numerics).
Variable self : AudioProcessor.

Ltac run_process_file :=
  unfold process_file, load_audio, io_bind, print, file_exists, from_file,
    io_lift, dir_exists, makedirs, export, io_ret, io_raise, file_lookup;
  simpl.

(** What a successful run of [process_file] leaves. *)
Lemma process_file_ok (input_path output_path : Path) (w w' : World) :
  process_file num self input_path output_path w = (Ok tt, w') ->
  exists audio silence_ranges processed,
    file_lookup input_path w = Some (Decodable audio) /\
    detect_silence num self audio = Ok silence_ranges /\
    remove_silence self audio silence_ranges = Ok processed /\
    file_lookup output_path w' = Some (Decodable processed) /\
    (forall p, p <> output_path -> file_lookup p w' = file_lookup p w) /\
    existsb (String.eqb (dirname output_path)) (dirs w') = true /\
    stdout w'
    = stdout w ++ [Processing input_path; Finished output_path;
                   Removed (List.length silence_ranges)].
Proof.
  run_process_file.
  destruct (find (fun entry => path_eqb input_path (fst entry)) (files w))
    as [[q [audio|]]|] eqn:Ein; simpl; rewrite ?Ein; simpl; try discriminate.
  destruct (detect_silence num self audio) as [silence_ranges|] eqn:Ed;
    simpl; try discriminate.
  destruct (remove_silence self audio silence_ranges) as [processed|] eqn:Er;
    simpl; try discriminate.
  destruct (existsb (String.eqb (dirname output_path)) (dirs w)) eqn:Edir; simpl.
  - destruct (existsb (String.eqb (extension output_path)) (encoders w));
      simpl; [|discriminate].
    intro H. inversion H; subst; clear H. simpl.
    exists audio, silence_ranges, processed.
    rewrite path_eqb_refl. simpl.
    repeat split; auto.
    + intros p Hp. destruct (path_eqb p output_path) eqn:E.
      * apply path_eqb_eq in E. congruence.
      * now rewrite find_after_export.
    + now rewrite <- !app_assoc.
  - destruct (String.eqb (dirname output_path) EmptyString) eqn:Eempty; simpl;
      [discriminate|].
    destruct (existsb (String.eqb (extension output_path)) (encoders w));
      simpl; [|discriminate].
    intro H. inversion H; subst; clear H. simpl.
    exists audio, silence_ranges, processed.
    rewrite path_eqb_refl, String.eqb_refl. simpl.
    repeat split; auto.
    + intros p Hp. destruct (path_eqb p output_path) eqn:E.
      * apply path_eqb_eq in E. congruence.
      * now rewrite find_after_export.
    + now rewrite <- !app_assoc.
Qed.


(** X11: when [process_file] returns, the output path holds the audio that
    [remove_silence] made of the input's audio and the ranges that
    [detect_silence] found in it, every other file is as it was, the
    directory of the output path exists, and the three messages were
    printed, the last with the number of ranges. *)
Theorem process_file_writes_result (input_path output_path : Path)
    (w w' : World) :
  process_file num self input_path output_path w = (Ok tt, w') ->
  exists audio silence_ranges processed,
    file_lookup input_path w = Some (Decodable audio) /\
    detect_silence num self audio = Ok silence_ranges /\
    remove_silence self audio silence_ranges = Ok processed /\
    file_lookup output_path w' = Some (Decodable processed) /\
    (forall p, p <> output_path -> file_lookup p w' = file_lookup p w) /\
    existsb (String.eqb (dirname output_path)) (dirs w') = true /\
    stdout w'
    = stdout w ++ [Processing input_path; Finished output_path;
                   Removed (List.length silence_ranges)].
Proof.
  apply process_file_ok.
Qed.


Lemma process_each_outputs (input_dir output_dir : string)
    (audio_files : list string) :
  forall w w',
    process_each num self input_dir output_dir audio_files w = (Ok tt, w') ->
    (forall p, (exists a, file_lookup p w = Some (Decodable a)) ->
               exists a, file_lookup p w' = Some (Decodable a)) /\
    (forall f, In f audio_files ->
               exists a, file_lookup (join output_dir f) w' = Some (Decodable a)).
Proof.
  induction audio_files as [|f rest IH]; intros w w' H; simpl in H.
  - unfold io_ret in H. inversion H; subst. split; [auto | intros f []].
  - unfold io_bind in H.
    destruct (process_file num self (join input_dir f) (join output_dir f) w)
      as [[[]|e] w1] eqn:E; [|discriminate].
    destruct (process_file_ok _ _ _ E)
      as (audio & ranges & processed & _ & _ & _ & Hout & Hother & _).
    destruct (IH w1 w' H) as [Hkeep Hrest].
    assert (Hstep : forall p, (exists a, file_lookup p w = Some (Decodable a)) ->
                              exists a, file_lookup p w1 = Some (Decodable a)).
    { intros p [a Ha].
      destruct (path_eqb p (join output_dir f)) eqn:Ep.
      - apply path_eqb_eq in Ep. subst p. eauto.
      - assert (p <> join output_dir f).
        { intro Heq. subst p. rewrite path_eqb_refl in Ep. discriminate. }
        rewrite (Hother p H0). eauto. }
    split.
    + intros p Hp. apply Hkeep. apply Hstep. exact Hp.
    + intros g [<-|Hg]; [apply Hkeep; eauto | apply Hrest; exact Hg].
Qed.

(** X13: when [process_directory] returns, every file of the input
    directory whose lower-cased name ends in .mp3, .wav, .m4a or .flac has
    a decodable output file of the same name in the output directory. *)
Theorem process_directory_writes_every_file (input_dir output_dir : string)
    (audio_files : list string) (w w0 w' : World) :
  list_audio_files input_dir output_dir w = (Ok audio_files, w0) ->
  process_directory num self input_dir output_dir w = (Ok tt, w') ->
  forall f, In f audio_files ->
            exists a, file_lookup (join output_dir f) w' = Some (Decodable a).
Proof.
  intros Hlist H. unfold process_directory, io_bind in H.
  rewrite Hlist in H.
  exact (proj2 (@process_each_outputs input_dir output_dir audio_files w0 w' H)).
Qed.

(** X14: [process_directory] on an input directory that does not exist
    raises [FileNotFoundError] at once: the output directory is not made,
    nothing is printed, the world is as it was. *)
Theorem process_directory_missing_input (input_dir output_dir : string)
    (w : World) :
  existsb (String.eqb input_dir) (dirs w) = false ->
  process_directory num self input_dir output_dir w
  = (Raise FileNotFoundError, w).
Proof.
  intro H. unfold process_directory, list_audio_files, io_bind, dir_exists.
  rewrite H. reflexivity.
Qed.

End FileFacts.

Lemma process_file_writes_result_witness :
  exists w',
    process_file rational_numerics default_processor
      (join "in" "b.wav") (join "out" "b.wav") Examples.two_files = (Ok tt, w') /\
    exists audio silence_ranges processed,
      file_lookup (join "in" "b.wav") Examples.two_files = Some (Decodable audio) /\
      detect_silence rational_numerics default_processor audio = Ok silence_ranges /\
      remove_silence default_processor audio silence_ranges = Ok processed /\
      file_lookup (join "out" "b.wav") w' = Some (Decodable processed) /\
      (forall p, p <> join "out" "b.wav" ->
                 file_lookup p w' = file_lookup p Examples.two_files) /\
      existsb (String.eqb (dirname (join "out" "b.wav"))) (dirs w') = true /\
      stdout w'
      = stdout Examples.two_files
        ++ [Processing (join "in" "b.wav"); Finished (join "out" "b.wav");
            Removed (List.length silence_ranges)].
Proof.
  eexists.
  assert (H : process_file rational_numerics default_processor
                (join "in" "b.wav") (join "out" "b.wav") Examples.two_files
              = (Ok tt, snd (process_file rational_numerics default_processor
                               (join "in" "b.wav") (join "out" "b.wav")
                               Examples.two_files)))
    by (vm_compute; reflexivity).
  split; [exact H|].
  exact (@process_file_writes_result rational_numerics default_processor
           _ _ _ _ H).
Defined.


Lemma process_directory_writes_every_file_witness :
  exists w0 w',
    list_audio_files "in" "out" Examples.good_directory
    = (Ok ["b.WAV"%string; "c.flac"%string], w0) /\
    process_directory rational_numerics default_processor "in" "out"
      Examples.good_directory = (Ok tt, w') /\
    forall f, In f ["b.WAV"%string; "c.flac"%string] ->
              exists a, file_lookup (join "out" f) w' = Some (Decodable a).
Proof.
  eexists. eexists.
  assert (H1 : list_audio_files "in" "out" Examples.good_directory
               = (Ok ["b.WAV"%string; "c.flac"%string],
                  snd (list_audio_files "in" "out" Examples.good_directory)))
    by (vm_compute; reflexivity).
  assert (H2 : process_directory rational_numerics default_processor "in" "out"
                 Examples.good_directory
               = (Ok tt, snd (process_directory rational_numerics
                                default_processor "in" "out" Examples.good_directory)))
    by (vm_compute; reflexivity).
  split; [exact H1|]. split; [exact H2|].
  exact (@process_directory_writes_every_file rational_numerics
           default_processor _ _ _ _ _ _ H1 H2).
Defined.

Lemma process_directory_missing_input_witness :
  existsb (String.eqb "music") (dirs Examples.two_files) = false /\
  process_directory rational_numerics default_processor "music" "out"
    Examples.two_files = (Raise FileNotFoundError, Examples.two_files).
Proof.
  assert (H : existsb (String.eqb "music") (dirs Examples.two_files) = false)
    by reflexivity.
  split; [exact H|].
  exact (@process_directory_missing_input rational_numerics default_processor
           "music" "out" Examples.two_files H).
Defined.

(** ** The filter on parabolas, the classifier on very short chunks *)








Lemma band_excluded (k : Z) (r : Q) :
  (255 < r)%Q ->
  Qle_bool 85 (inject_Z k * r) && Qle_bool (inject_Z k * r) 255 = false.
Proof.
  intro Hr. apply andb_false_iff.
  destruct (Z_le_gt_dec k 0) as [Hk|Hk].
  - left. destruct (Qle_bool 85 (inject_Z k * r)) eqn:E; [|reflexivity].
    apply Qle_bool_iff in E.
    assert (inject_Z k <= 0)%Q by (change 0%Q with (inject_Z 0); rewrite <- Zle_Qle; lia).
    exfalso. nra.
  - right. destruct (Qle_bool (inject_Z k * r) 255) eqn:E; [|reflexivity].
    apply Qle_bool_iff in E.
    assert (1 <= inject_Z k)%Q by (change 1%Q with (inject_Z 1); rewrite <- Zle_Qle; lia).
    exfalso. nra.
Qed.

Lemma masked_none (a : list Q) :
  forall mask, Forall (fun m => m = false) mask -> masked a mask = [].
Proof.
  unfold masked. induction a as [|x a IH]; intros mask H; [reflexivity|].
  destruct mask as [|m mask]; [reflexivity|].
  inversion H; subst. simpl. apply IH. assumption.
Qed.

(** X16: a chunk so short that the spacing of its frequency bins exceeds
    255 Hz (fewer than sample_rate / 255 samples, under 4 ms: it can only
    be the last chunk of a recording) has no bin in the voice band, and the
    classifier returns false for it whatever its samples are. *)
Theorem tiny_chunk_never_voiced (num : Numerics) (samples : list Z)
    (sample_rate : positive) :
  samples <> [] ->
  255 * Z.of_nat (List.length samples) < Zpos sample_rate ->
  get_frequency_features num samples sample_rate = Ok false.
Proof.
  intros Hne Hshort.
  assert (Hv : voice_energy num samples sample_rate = 0%Q).
  { unfold voice_energy. rewrite masked_none; [reflexivity|].
    apply Forall_map. unfold fftfreq. apply Forall_map.
    apply Forall_forall. intros k _. apply band_excluded.
    assert (Hn : (0 < inject_Z (Z.of_nat (List.length samples)))%Q).
    { change 0%Q with (inject_Z 0). rewrite <- Zlt_Qlt.
      destruct samples; [congruence | simpl; lia]. }
    apply Qlt_shift_div_l; [exact Hn|].
    change 255%Q with (inject_Z 255). rewrite <- inject_Z_mult, <- Zlt_Qlt. lia. }
  unfold get_frequency_features.
  destruct samples as [|x xs]; [congruence|].
  rewrite Hv.
  destruct (Qltb 0 (total_energy num (x :: xs))) eqn:E; [|reflexivity].
  apply Qltb_lt in E. unfold np_div.
  destruct (Qeq_bool (total_energy num (x :: xs)) 0) eqn:Ez.
  - apply Qeq_bool_iff in Ez. lra.
  - simpl. reflexivity.
Qed.


Lemma tiny_chunk_never_voiced_witness :
  Examples.one_sample <> [] /\
  255 * Z.of_nat (List.length Examples.one_sample) < Zpos 44100 /\
  get_frequency_features rational_numerics Examples.one_sample 44100 = Ok false.
Proof.
  assert (H1 : Examples.one_sample <> []) by discriminate.
  assert (H2 : 255 * Z.of_nat (List.length Examples.one_sample) < Zpos 44100)
    by (simpl; lia).
  split; [exact H1|]. split; [exact H2|].
  exact (@tiny_chunk_never_voiced rational_numerics Examples.one_sample
           44100%positive H1 H2).
Defined.

(** ** The minimum length counts whole chunks *)

Section Grid.

Variable thr : Q.
Variable n : nat.

Let bare : AudioProcessor :=
  {| threshold_db := thr; min_silence_len := 0; crossfade_len := 0 |}.

Let on_grid (st : DetectorState) : Prop :=
  Forall (fun c => (snd c - fst c) mod 100 = 0) (silence_ranges st) /\
  (is_silence st = true ->
   0 <= silence_start st /\ silence_start st mod 100 = 0).

Lemma transition_on_grid (i : nat) db v st :
  (i < n)%nat -> on_grid st ->
  on_grid (transition bare (100 * Z.of_nat n) n i db v st).
Proof.
  intros Hi [Hr Hs].
  remember (100 * Z.of_nat n) as L0 eqn:HL0.
  unfold transition, bare. cbn [threshold_db min_silence_len crossfade_len].
  destruct (DB.lt db thr && negb (is_silence st) && negb v).
  - split; cbn [silence_ranges silence_start]; [exact Hr|].
    intros _. split; [lia | apply Z.mod_mul; lia].
  - destruct ((DB.ge db thr || (Z.of_nat i =? Z.of_nat n - 1) || v)
              && is_silence st) eqn:E; [|split; assumption].
    apply andb_true_iff in E. destruct E as [_ Hin].
    destruct (Hs Hin) as [H0 Hmod].
    destruct (0 <=? Z.of_nat i * 100 - silence_start st);
      (split; cbn [silence_ranges is_silence]; [|discriminate]);
      [|exact Hr].
    apply Forall_app. split; [exact Hr|].
    constructor; [|constructor]. cbn [fst snd].
    replace (Z.min L0 (Z.of_nat i * 100 + 0) - Z.max 0 (silence_start st - 0))
      with (Z.of_nat i * 100 - silence_start st) by lia.
    rewrite Zminus_mod, Z.mod_mul, Hmod by lia. reflexivity.
Qed.

Lemma scan_on_grid (chunks : list (DB.dB * bool)) :
  forall i st,
    (i + List.length chunks <= n)%nat -> on_grid st ->
    on_grid (scan bare (100 * Z.of_nat n) n i chunks st).
Proof.
  induction chunks as [|[db v] chunks IH]; intros i st Hi H; simpl in *.
  - exact H.
  - apply IH; [lia|]. apply transition_on_grid; [lia | exact H].
Qed.

End Grid.

(** The durations of all candidates are multiples of 100 ms. *)
Lemma candidates_on_grid (thr : Q) (chunks : list (DB.dB * bool)) :
  Forall (fun c => (snd c - fst c) mod 100 = 0) (candidates thr chunks).
Proof.
  unfold candidates, detect_ranges.
  refine (proj1 (@scan_on_grid thr (List.length chunks) chunks 0%nat
                   detector_init _ _)).
  - simpl. lia.
  - split; [constructor | discriminate].
Qed.

Lemma long_enough_rounded (self : AudioProcessor) (c : Z * Z) :
  (snd c - fst c) mod 100 = 0 ->
  long_enough (with_minimum self (100 * ((min_silence_len self + 99) / 100))) c
  = long_enough self c.
Proof.
  intro Hmod. unfold long_enough, with_minimum. cbn [min_silence_len].
  set (d := snd c - fst c) in *. set (m := min_silence_len self).
  assert (Hd : d = 100 * (d / 100)).
  { rewrite (Z.div_mod d 100) at 1 by lia. lia. }
  assert (Hq : 100 * ((m + 99) / 100) <= m + 99 < 100 * ((m + 99) / 100) + 100).
  { pose proof (Z.div_mod (m + 99) 100) as H1.
    pose proof (Z.mod_pos_bound (m + 99) 100) as H2. lia. }
  destruct (Z.leb_spec (100 * ((m + 99) / 100)) d) as [H1|H1];
    destruct (Z.leb_spec m d) as [H2|H2]; try reflexivity; exfalso; lia.
Qed.

(** X17: candidates are measured in whole chunks, so the minimum length
    counts in steps of 100 ms: [detect_silence] gives the same result for
    [min_silence_len] and for [min_silence_len] rounded up to the next
    multiple of 100 (the same for 401 and for 500). *)
Theorem minimum_counts_whole_chunks (num : Numerics) (self : AudioProcessor)
    (audio : AudioSegment) :
  detect_silence num
    (with_minimum self (100 * ((min_silence_len self + 99) / 100))) audio
  = detect_silence num self audio.
Proof.
  rewrite !detect_silence_ranges.
  destruct (classify num audio) as [chunks|]; simpl; [|reflexivity].
  rewrite !detect_ranges_candidates. f_equal. f_equal.
  apply filter_ext_in. intros c Hc.
  apply long_enough_rounded.
  pose proof (candidates_on_grid (threshold_db self) chunks) as Hall.
  rewrite Forall_forall in Hall. apply Hall. exact Hc.
Qed.

(** X18: raising [min_silence_len] only drops ranges: every range that
    [detect_silence] returns with a larger minimum is returned with the
    smaller minimum too, with the same start and end. *)
Theorem higher_minimum_only_drops_ranges (num : Numerics)
    (self : AudioProcessor) (audio : AudioSegment) (m : Z)
    (ranges ranges' : list (Z * Z)) :
  min_silence_len self <= m ->
  detect_silence num self audio = Ok ranges ->
  detect_silence num (with_minimum self m) audio = Ok ranges' ->
  incl ranges' ranges.
Proof.
  intros Hm H H'. rewrite detect_silence_ranges in H, H'.
  destruct (classify num audio) as [chunks|]; simpl in *; [|discriminate].
  inversion H; inversion H'; subst; clear H H'.
  rewrite !detect_ranges_candidates. intros r Hr.
  apply in_map_iff in Hr. destruct Hr as [c [<- Hc]].
  apply filter_In in Hc. destruct Hc as [Hin Hlong].
  apply in_map_iff. exists c. split; [reflexivity|].
  apply filter_In. split; [exact Hin|].
  unfold long_enough, with_minimum in *. cbn [min_silence_len] in Hlong.
  apply Z.leb_le in Hlong. apply Z.leb_le. lia.
Qed.

Lemma higher_minimum_only_drops_ranges_witness :
  min_silence_len Examples.min_200 <= 201 /\
  detect_silence rational_numerics Examples.min_200 Examples.gap_track
  = Ok [(50, 350)] /\
  detect_silence rational_numerics (with_minimum Examples.min_200 201)
    Examples.gap_track = Ok [] /\
  incl [] [(50, 350)].
Proof.
  assert (H0 : min_silence_len Examples.min_200 <= 201) by (simpl; lia).
  assert (H1 : detect_silence rational_numerics Examples.min_200
                 Examples.gap_track = Ok [(50, 350)])
    by (vm_compute; reflexivity).
  assert (H2 : detect_silence rational_numerics
                 (with_minimum Examples.min_200 201) Examples.gap_track = Ok [])
    by (vm_compute; reflexivity).
  split; [exact H0|]. split; [exact H1|]. split; [exact H2|].
  exact (@higher_minimum_only_drops_ranges rational_numerics Examples.min_200
           Examples.gap_track 201 _ _ H0 H1 H2).
Defined.
